(** * Density-fitting force provider

    A shallow embedding of
    [src/gromacs/applied_forces/densityfittingforceprovider.cpp]:
    the kernel-shape derivation [makeSpreadKernel], the constructor of
    [DensityFittingForceProvider::Impl] and its [calculateForces].

    Scalars ([real], [float]) are kept abstract behind the [Scalar]
    interface; nothing is assumed of its operations unless a statement
    asks for [ExactArithmetic].  Reading or writing a buffer past its end
    is undefined behaviour in the source and is an explicit fault here. *)

From Stdlib Require Import QArith Qcanon.
From stdpp Require Import base option functions numbers list.

(** ** Scalars *)

(** The arithmetic the code performs on [real] and [float] values. *)
Class Scalar (R : Type) := {
  zero : R;
  add : R → R → R;
  mul : R → R → R;
  opp : R → R;
  div : R → R → R;
  (** the test [x == 0] *)
  isZero : R → bool;
}.

(** Arithmetic without rounding. *)
Class ExactArithmetic (R : Type) `{Scalar R} := {
  add_assoc : ∀ a b c : R, add a (add b c) = add (add a b) c;
  add_comm : ∀ a b : R, add a b = add b a;
  add_zero_l : ∀ a : R, add zero a = a;
  div_mul_cancel : ∀ v s : R, s ≠ zero → div (mul v s) s = v;
  isZero_spec : ∀ s : R, isZero s = true ↔ s = zero;
}.

(** ** Faults and results *)

Inductive Fault :=
  | OutOfRange          (* an index or iterator ran past its buffer *)
  | CollectiveMismatch. (* the ranks did not all enter the collective *)

Inductive res (A : Type) :=
  | Ok (a : A)
  | Err (f : Fault).
Arguments Ok {A} a.
Arguments Err {A} f.

#[global] Instance res_ret : MRet res := λ A a, Ok a.
#[global] Instance res_bind : MBind res := λ A B f m,
  match m with Ok a => f a | Err e => Err e end.
#[global] Instance res_fmap : FMap res := λ A B f m,
  match m with Ok a => Ok (f a) | Err e => Err e end.

Definition fromOption {A} (e : Fault) (o : option A) : res A :=
  match o with Some a => Ok a | None => Err e end.

Fixpoint traverse {A B} (f : A → res B) (l : list A) : res (list B) :=
  match l with
  | [] => Ok []
  | a :: l' => b ← f a; bs ← traverse f l'; mret (b :: bs)
  end.

(** ** Vectors and lattices *)

Inductive Axis := XX | YY | ZZ.

Record Vec3 (R : Type) := mkVec { vecX : R; vecY : R; vecZ : R }.
Arguments mkVec {R} vecX vecY vecZ.
Arguments vecX {R} v.
Arguments vecY {R} v.
Arguments vecZ {R} v.

Definition component {R} (v : Vec3 R) (a : Axis) : R :=
  match a with XX => vecX v | YY => vecY v | ZZ => vecZ v end.

Definition vecMap2 {R} (f : R → R → R) (u v : Vec3 R) : Vec3 R :=
  mkVec (f (vecX u) (vecX v)) (f (vecY u) (vecY v)) (f (vecZ u) (vecZ v)).

(** [dynamicExtents3D] *)
Record Extents := mkExtents { extent0 : nat; extent1 : nat; extent2 : nat }.

Definition required_span_size (e : Extents) : nat :=
  extent0 e * extent1 e * extent2 e.

(** [basic_mdspan<float, dynamicExtents3D>]: the extents and the flat data *)
Record Density (R : Type) := mkDensity { extents : Extents; data : list R }.
Arguments mkDensity {R} extents data.
Arguments extents {R} d.
Arguments data {R} d.

(** [GaussianSpreadKernelParameters::Shape] *)
Record Shape (R : Type) := mkShape { sigma_ : Vec3 R; nSigma_ : R }.
Arguments mkShape {R} sigma_ nSigma_.
Arguments sigma_ {R} s.
Arguments nSigma_ {R} s.

(** [ScaleCoordinates] and [TranslateAndScale] *)
Record ScaleCoordinates (R : Type) := mkScale { scale_ : Vec3 R }.
Arguments mkScale {R} scale_.
Arguments scale_ {R} s.

Record TranslateAndScale (R : Type) :=
  mkTranslateAndScale { tsScale : Vec3 R; tsTranslation : Vec3 R }.
Arguments mkTranslateAndScale {R} tsScale tsTranslation.
Arguments tsScale {R} t.
Arguments tsTranslation {R} t.

(** Modelled from the spec: [TranslateAndScale::scaleOperationOnly]; the
    scale-only part of the transformation. *)
Definition scaleOperationOnly {R} (t : TranslateAndScale R) : ScaleCoordinates R :=
  mkScale (tsScale t).

(** [LocalAtomSet]: the indices, on this rank, of the restrained atoms *)
Record LocalAtomSet := mkLocalAtomSet { localIndex : list nat }.

(** Modelled from the spec: [LocalAtomSet::numAtomsLocal]; the number of
    local indices. *)
Definition numAtomsLocal (s : LocalAtomSet) : nat := length (localIndex s).

(** [t_commrec], as far as [PAR] looks at it *)
Record t_commrec := mkCommrec { nnodes : nat }.

(** Modelled from the spec: the macro [PAR]; the run has more than one
    rank. *)
Definition PAR (cr : t_commrec) : bool := bool_decide (1 < nnodes cr).

(** ** Collaborators

    What the provider calls but does not define: the coordinate
    transformation, the Gauss transform, the similarity measure, the
    density-fitting force and the amplitude lookup, together with the
    types they are declared over. *)
Class Collaborators (R : Type) := {
  t_mdatoms : Type;
  (** [DensitySimilarityMeasureMethod], [DensityFittingAmplitudeMethod] *)
  SimilarityMethod : Type;
  AmplitudeMethod : Type;
  (** the entries [F_...] of [enerd_.term] *)
  EnergyTerm : Type;
  EnergyTerm_eq_dec :: EqDecision EnergyTerm;
  F_COM_PULL : EnergyTerm;
  (** [TranslateAndScale::operator()], on one coordinate *)
  toLattice : TranslateAndScale R → Vec3 R → Vec3 R;
  (** the truncated Gaussian of a shape centred at a point, at a flat cell *)
  gaussianAt : Shape R → Extents → Vec3 R → nat → R;
  (** [DensityFittingForce::evaluateForce] *)
  evaluateForce : Shape R → Vec3 R * R → Density R → Vec3 R;
  (** [DensitySimilarityMeasure::gradient] and [::similarity]; the first
      density is the reference *)
  gradient : SimilarityMethod → Density R → Density R → Density R;
  similarity : SimilarityMethod → Density R → Density R → R;
  (** [DensityFittingAmplitudeLookup::operator()] *)
  amplitudeLookup : AmplitudeMethod → t_mdatoms → list nat → list R;
}.

Section Provider.
Context {R : Type} `{!Scalar R} `{!Collaborators R}.

Abbreviation RVec := (Vec3 R).

(** *** Modelled collaborators *)

(** Modelled from the spec: [ScaleCoordinates::operator()]
    (coordinatetransformation.h is not part of the sources); the
    anisotropic scale applied to a vector, one factor per axis. *)
Definition scaleCoordinates (s : ScaleCoordinates R) (v : RVec) : RVec :=
  vecMap2 mul v (scale_ s).

(** Modelled from the spec: one axis of
    [ScaleCoordinates::inverseIgnoringZeroScale]; the inverse scale where
    the factor is not zero, the component left untouched where it is zero. *)
Definition inverseScaleAxis (s v : R) : R :=
  if isZero s then v else div v s.

(** Modelled from the spec: [ScaleCoordinates::inverseIgnoringZeroScale],
    on a list of vectors. *)
Definition inverseIgnoringZeroScale (s : ScaleCoordinates R) (forces : list RVec)
  : list RVec :=
  (λ f, vecMap2 inverseScaleAxis (scale_ s) f) <$> forces.

(** [GaussTransform3D]: its extents, its kernel and the density buffer *)
Record GaussTransform3D := mkGaussTransform3D {
  gtExtents : Extents;
  gtShape : Shape R;
  gtData : list R;
}.

(** Modelled from the spec: the constructor of [GaussTransform3D]
    (gausstransform.h is not part of the sources); a buffer of the given
    extents. *)
Definition GaussTransform3D_ctor (e : Extents) (k : Shape R) : GaussTransform3D :=
  mkGaussTransform3D e k (replicate (required_span_size e) zero).

(** Modelled from the spec: [GaussTransform3D::setZero]; every cell reset. *)
Definition setZero (g : GaussTransform3D) : GaussTransform3D :=
  mkGaussTransform3D (gtExtents g) (gtShape g) (replicate (length (gtData g)) zero).

(** Modelled from the spec: [GaussTransform3D::add]; each cell gains the
    amplitude times the truncated Gaussian centred at the point. *)
Definition spreadOne (k : Shape R) (e : Extents) (ra : RVec * R) (buffer : list R)
  : list R :=
  imap (λ c v, add v (mul ra.2 (gaussianAt k e ra.1 c))) buffer.

(** Modelled from the spec: [GaussTransform3D::add], on the transform. *)
Definition gtAdd (g : GaussTransform3D) (ra : RVec * R) : GaussTransform3D :=
  mkGaussTransform3D (gtExtents g) (gtShape g)
    (spreadOne (gtShape g) (gtExtents g) ra (gtData g)).

Definition constView (g : GaussTransform3D) : Density R :=
  mkDensity (gtExtents g) (gtData g).

(** [DensitySimilarityMeasure], [DensityFittingForce],
    [DensityFittingAmplitudeLookup]: what their constructors are given *)
Record DensitySimilarityMeasure := mkMeasure {
  measureMethod : SimilarityMethod;
  measureReference : Density R;
}.

Record DensityFittingForce := mkDensityFittingForce { forceShape : Shape R }.

Record DensityFittingAmplitudeLookup := mkAmplitudeLookup {
  lookupMethod : AmplitudeMethod;
}.

(** Modelled from the spec: [gmx_sumf] (network.h is not part of the
    sources); the element-wise sum, in rank order, of the buffers the
    ranks hand to the collective. *)
Definition gmx_sumf (contributions : list (list R)) : list R :=
  match contributions with
  | [] => []
  | first :: others => foldl (zip_with add) first others
  end.

(** *** The provider's own data *)

Record DensityFittingParameters := mkParameters {
  gaussianTransformSpreadingWidth_ : R;
  gaussianTransformSpreadingRangeInMultiplesOfWidth_ : R;
  similarityMeasureMethod_ : SimilarityMethod;
  amplitudeLookupMethod_ : AmplitudeMethod;
  forceConstant_ : R;
}.

Record ForceProviderInput := mkInput {
  x_ : list RVec;
  mdatoms_ : t_mdatoms;
  cr_ : t_commrec;
}.

(** [forceWithVirial_.force_] and [enerd_.term] *)
Record ForceProviderOutput := mkOutput {
  force_ : list RVec;
  term : EnergyTerm → R;
}.

Record Impl := mkImpl {
  parameters_ : DensityFittingParameters;
  localAtomSet_ : LocalAtomSet;
  spreadKernel_ : Shape R;
  gaussTransform_ : GaussTransform3D;
  measure_ : DensitySimilarityMeasure;
  densityFittingForce_ : DensityFittingForce;
  transformedCoordinates_ : list RVec;
  forces_ : list RVec;
  amplitudeLookup_ : DensityFittingAmplitudeLookup;
  transformationToDensityLattice_ : TranslateAndScale R;
}.

(** *** makeSpreadKernel *)

Definition makeSpreadKernel (sigma nSigma : R) (scaleToLattice : ScaleCoordinates R)
  : Shape R :=
  let sigmaInLatticeCoordinates := mkVec sigma sigma sigma in
  let sigmaInLatticeCoordinates := scaleCoordinates scaleToLattice sigmaInLatticeCoordinates in
  mkShape (mkVec (component sigmaInLatticeCoordinates XX)
                 (component sigmaInLatticeCoordinates YY)
                 (component sigmaInLatticeCoordinates ZZ))
          nSigma.

(** *** The constructor *)

Definition Impl_ctor (parameters : DensityFittingParameters)
    (referenceDensity : Density R)
    (transformationToDensityLattice : TranslateAndScale R)
    (localAtomSet : LocalAtomSet) : Impl :=
  let spreadKernel :=
    makeSpreadKernel (gaussianTransformSpreadingWidth_ parameters)
      (gaussianTransformSpreadingRangeInMultiplesOfWidth_ parameters)
      (scaleOperationOnly transformationToDensityLattice) in
  {| parameters_ := parameters;
     localAtomSet_ := localAtomSet;
     spreadKernel_ := spreadKernel;
     gaussTransform_ := GaussTransform3D_ctor (extents referenceDensity) spreadKernel;
     measure_ := mkMeasure (similarityMeasureMethod_ parameters) referenceDensity;
     densityFittingForce_ := mkDensityFittingForce spreadKernel;
     transformedCoordinates_ :=
       replicate (numAtomsLocal localAtomSet) (mkVec zero zero zero);
     forces_ := [];
     amplitudeLookup_ := mkAmplitudeLookup (amplitudeLookupMethod_ parameters);
     transformationToDensityLattice_ := transformationToDensityLattice |}.

(** *** calculateForces *)

(** The collaborator calls of one evaluation, in the order they are made. *)
Inductive Call :=
  | CallSetZero | CallAdd | CallSumf | CallGradient
  | CallEvaluateForce | CallInverseScale | CallSimilarity.

#[global] Instance Call_eq_dec : EqDecision Call.
Proof. solve_decision. Defined.

Record Result := mkResult {
  resImpl : Impl;
  resOutput : ForceProviderOutput;
  resCalls : list Call;
}.

(** An evaluation either returns, or is blocked inside [gmx_sumf] with the
    number of cells [required_span_size()] and the buffer [data()] it
    handed over, and resumes once the summed buffer is back. *)
Inductive Outcome :=
  | Returned (r : Result)
  | InReduction (nr : nat) (buffer : list R) (resume : list R → res Result).

(** [std::transform] over the local indices: [x_[index]] for each of them *)
Definition pickCoordinates (x : list RVec) (indices : list nat) : res (list RVec) :=
  traverse (λ index, fromOption OutOfRange (x !! index)) indices.

(** the loop over [transformedCoordinates_] with [amplitudeIterator] *)
Fixpoint spreadAtoms (g : GaussTransform3D) (coordinates : list RVec)
    (amplitudes : list R) : res GaussTransform3D :=
  match coordinates with
  | [] => Ok g
  | r :: coordinates' =>
      match amplitudes with
      | [] => Err OutOfRange
      | amplitude :: amplitudes' => spreadAtoms (gtAdd g (r, amplitude)) coordinates' amplitudes'
      end
  end.

(** the binary [std::transform] that fills [forces_] *)
Fixpoint evaluateForces (f : DensityFittingForce) (densityDerivative : Density R)
    (coordinates : list RVec) (amplitudes : list R) : res (list RVec) :=
  match coordinates with
  | [] => Ok []
  | r :: coordinates' =>
      match amplitudes with
      | [] => Err OutOfRange
      | amplitude :: amplitudes' =>
          rest ← evaluateForces f densityDerivative coordinates' amplitudes';
          mret (evaluateForce (forceShape f) (r, amplitude) densityDerivative :: rest)
      end
  end.

(** [forceConstant_ * force] and [+=] on vectors *)
Definition scaleVec (k : R) (v : RVec) : RVec :=
  mkVec (mul k (vecX v)) (mul k (vecY v)) (mul k (vecZ v)).

Definition addVec (u v : RVec) : RVec := vecMap2 add u v.

(** the loop over [localIndex()] with [densityForceIterator] *)
Fixpoint addForces (forceConstant : R) (indices : list nat) (forces : list RVec)
    (force : list RVec) : res (list RVec) :=
  match indices with
  | [] => Ok force
  | localAtomIndex :: indices' =>
      match forces with
      | [] => Err OutOfRange
      | densityForce :: forces' =>
          match force !! localAtomIndex with
          | None => Err OutOfRange
          | Some old =>
              addForces forceConstant indices' forces'
                (<[localAtomIndex := addVec old (scaleVec forceConstant densityForce)]> force)
          end
      end
  end.

(** Lines 173 to 202: from the grid derivative to the energy, on the
    buffer as it is after the communication step. *)
Definition afterCommunication (impl : Impl) (amplitudes : list R)
    (forceProviderOutput : ForceProviderOutput) (calls : list Call)
    (buffer : list R) : res Result :=
  let gaussTransform :=
    mkGaussTransform3D (gtExtents (gaussTransform_ impl))
      (gtShape (gaussTransform_ impl)) buffer in
  (* calculate grid derivative *)
  let densityDerivative :=
    gradient (measureMethod (measure_ impl)) (measureReference (measure_ impl))
      (constView gaussTransform) in
  (* calculate forces *)
  forces ← evaluateForces (densityFittingForce_ impl) densityDerivative
              (transformedCoordinates_ impl) amplitudes;
  let forces :=
    inverseIgnoringZeroScale
      (scaleOperationOnly (transformationToDensityLattice_ impl)) forces in
  force ← addForces (forceConstant_ (parameters_ impl))
            (localIndex (localAtomSet_ impl)) forces (force_ forceProviderOutput);
  (* calculate corresponding potential energy *)
  let similarity :=
    similarity (measureMethod (measure_ impl)) (measureReference (measure_ impl))
      (constView gaussTransform) in
  let energy := mul (opp similarity) (forceConstant_ (parameters_ impl)) in
  mret {|
    resImpl :=
      {| parameters_ := parameters_ impl;
         localAtomSet_ := localAtomSet_ impl;
         spreadKernel_ := spreadKernel_ impl;
         gaussTransform_ := gaussTransform;
         measure_ := measure_ impl;
         densityFittingForce_ := densityFittingForce_ impl;
         transformedCoordinates_ := transformedCoordinates_ impl;
         forces_ := forces;
         amplitudeLookup_ := amplitudeLookup_ impl;
         transformationToDensityLattice_ := transformationToDensityLattice_ impl |};
    resOutput :=
      {| force_ := force;
         term := <[F_COM_PULL := add (term forceProviderOutput F_COM_PULL) energy]>
                   (term forceProviderOutput) |};
    resCalls :=
      calls ++ [CallGradient]
            ++ replicate (length (transformedCoordinates_ impl)) CallEvaluateForce
            ++ [CallInverseScale; CallSimilarity] |}.

Definition calculateForces (impl : Impl) (forceProviderInput : ForceProviderInput)
    (forceProviderOutput : ForceProviderOutput) : res Outcome :=
  (* do nothing if there are no density fitting atoms on this node *)
  if decide (numAtomsLocal (localAtomSet_ impl) = 0) then
    mret (Returned (mkResult impl forceProviderOutput []))
  else
    (* pick and copy atom coordinates *)
    picked ← pickCoordinates (x_ forceProviderInput) (localIndex (localAtomSet_ impl));
    (* transform local atom coordinates to density grid coordinates *)
    let transformedCoordinates :=
      toLattice (transformationToDensityLattice_ impl) <$> picked in
    (* spread atoms on grid *)
    let amplitudes :=
      amplitudeLookup (lookupMethod (amplitudeLookup_ impl))
        (mdatoms_ forceProviderInput) (localIndex (localAtomSet_ impl)) in
    gaussTransform ← spreadAtoms (setZero (gaussTransform_ impl))
                        transformedCoordinates amplitudes;
    let impl' :=
      {| parameters_ := parameters_ impl;
         localAtomSet_ := localAtomSet_ impl;
         spreadKernel_ := spreadKernel_ impl;
         gaussTransform_ := gaussTransform;
         measure_ := measure_ impl;
         densityFittingForce_ := densityFittingForce_ impl;
         transformedCoordinates_ := transformedCoordinates;
         forces_ := forces_ impl;
         amplitudeLookup_ := amplitudeLookup_ impl;
         transformationToDensityLattice_ := transformationToDensityLattice_ impl |} in
    let calls := CallSetZero :: replicate (length transformedCoordinates) CallAdd in
    (* communicate grid *)
    if PAR (cr_ forceProviderInput) then
      mret (InReduction (required_span_size (gtExtents gaussTransform))
              (gtData gaussTransform)
              (afterCommunication impl' amplitudes forceProviderOutput
                 (calls ++ [CallSumf])))
    else
      Returned <$> afterCommunication impl' amplitudes forceProviderOutput calls
                     (gtData gaussTransform).

(** *** Several ranks *)

(** One rank of a run: its provider and what the host passes to it. *)
Record Rank := mkRank {
  rankImpl : Impl;
  rankInput : ForceProviderInput;
  rankOutput : ForceProviderOutput;
}.

Definition returnedOf (o : Outcome) : option Result :=
  match o with Returned r => Some r | InReduction _ _ _ => None end.

Definition reductionOf (o : Outcome) : option (list R * (list R → res Result)) :=
  match o with Returned _ => None | InReduction _ buffer resume => Some (buffer, resume) end.

(** Modelled from the spec: one evaluation on every rank of a run.
    [gmx_sumf] is a blocking collective: it completes only when every rank
    has entered it, and then every rank resumes with the same sum. *)
Definition evaluateOnAllRanks (ranks : list Rank) : res (list Result) :=
  outcomes ← traverse (λ rk, calculateForces (rankImpl rk) (rankInput rk) (rankOutput rk)) ranks;
  match mapM returnedOf outcomes with
  | Some results => Ok results
  | None =>
      match mapM reductionOf outcomes with
      | Some blocked =>
          let summed := gmx_sumf (blocked.*1) in
          traverse (λ b : list R * (list R → res Result), b.2 summed) blocked
      | None => Err CollectiveMismatch
      end
  end.

(** *** DensityFittingForceProvider *)

(** the public class: it owns an [Impl] and forwards to it *)
Record DensityFittingForceProvider := mkProvider { impl_ : Impl }.

Definition DensityFittingForceProvider_ctor (parameters : DensityFittingParameters)
    (referenceDensity : Density R)
    (transformationToDensityLattice : TranslateAndScale R)
    (localAtomSet : LocalAtomSet) : DensityFittingForceProvider :=
  mkProvider
    (Impl_ctor parameters referenceDensity transformationToDensityLattice localAtomSet).

Definition DensityFittingForceProvider_calculateForces
    (provider : DensityFittingForceProvider) (forceProviderInput : ForceProviderInput)
    (forceProviderOutput : ForceProviderOutput) : res Outcome :=
  calculateForces (impl_ provider) forceProviderInput forceProviderOutput.

End Provider.

(** * What the statements are made of *)

Section Statements.
Context {R : Type} `{!Scalar R} `{!Collaborators R}.

Abbreviation RVec := (Vec3 R).

(** ** One evaluation *)

(** The indices an evaluation dereferences stay inside the host's buffers,
    and the amplitude lookup returns at least one amplitude per index. *)
Definition inRange (impl : Impl) (inp : ForceProviderInput)
    (out : ForceProviderOutput) : Prop :=
  Forall (λ i, i < length (x_ inp)) (localIndex (localAtomSet_ impl))
  ∧ Forall (λ i, i < length (force_ out)) (localIndex (localAtomSet_ impl))
  ∧ length (localIndex (localAtomSet_ impl))
      ≤ length (amplitudeLookup (lookupMethod (amplitudeLookup_ impl))
                  (mdatoms_ inp) (localIndex (localAtomSet_ impl))).

(** What the accumulation loop leaves in one slot of the force buffer:
    the forces whose index is that slot, added in list order. *)
Definition accumulated (forceConstant : R) (slot : nat) (indices : list nat)
    (forces : list RVec) (old : RVec) : RVec :=
  foldl (λ acc (p : nat * RVec),
           if decide (p.1 = slot) then addVec acc (scaleVec forceConstant p.2) else acc)
        old (zip indices forces).

Definition amplitudesOf (impl : Impl) (inp : ForceProviderInput) : list R :=
  amplitudeLookup (lookupMethod (amplitudeLookup_ impl)) (mdatoms_ inp)
    (localIndex (localAtomSet_ impl)).

(** the local atoms' coordinates on the density lattice *)
Definition localCoordinates (impl : Impl) (inp : ForceProviderInput) : list RVec :=
  toLattice (transformationToDensityLattice_ impl)
    <$> omap (λ i, x_ inp !! i) (localIndex (localAtomSet_ impl)).

(** the local atoms as the Gauss transform sees them *)
Definition localParticles (impl : Impl) (inp : ForceProviderInput) : list (RVec * R) :=
  zip (localCoordinates impl inp) (amplitudesOf impl inp).

(** a zeroed buffer with a list of particles spread on it *)
Definition rasterize (g : GaussTransform3D) (particles : list (RVec * R))
  : GaussTransform3D :=
  foldl gtAdd (setZero g) particles.

(** the provider once its local atoms are spread on the grid *)
Definition spread (impl : Impl) (inp : ForceProviderInput) : Impl :=
  {| parameters_ := parameters_ impl;
     localAtomSet_ := localAtomSet_ impl;
     spreadKernel_ := spreadKernel_ impl;
     gaussTransform_ := rasterize (gaussTransform_ impl) (localParticles impl inp);
     measure_ := measure_ impl;
     densityFittingForce_ := densityFittingForce_ impl;
     transformedCoordinates_ := localCoordinates impl inp;
     forces_ := forces_ impl;
     amplitudeLookup_ := amplitudeLookup_ impl;
     transformationToDensityLattice_ := transformationToDensityLattice_ impl |}.

Definition callsBeforeCommunication (impl : Impl) (inp : ForceProviderInput) : list Call :=
  CallSetZero :: replicate (length (localCoordinates impl inp)) CallAdd.

(** the density the similarity measure is given *)
Definition scoredDensity (impl : Impl) (buffer : list R) : Density R :=
  mkDensity (gtExtents (gaussTransform_ impl)) buffer.

(** the forces on the lattice, one per local atom *)
Definition latticeForces (impl : Impl) (amplitudes : list R) (buffer : list R)
  : list RVec :=
  (λ ra, evaluateForce (forceShape (densityFittingForce_ impl)) ra
           (gradient (measureMethod (measure_ impl)) (measureReference (measure_ impl))
              (scoredDensity impl buffer)))
    <$> zip (transformedCoordinates_ impl) amplitudes.

Definition energyOf (impl : Impl) (buffer : list R) : R :=
  mul (opp (similarity (measureMethod (measure_ impl)) (measureReference (measure_ impl))
              (scoredDensity impl buffer)))
      (forceConstant_ (parameters_ impl)).

(** What [afterCommunication] leaves behind. *)
Record completed (impl : Impl) (amplitudes : list R) (out : ForceProviderOutput)
    (calls : list Call) (buffer : list R) (r : Result) : Prop := {
  completed_buffer : gtData (gaussTransform_ (resImpl r)) = buffer;
  completed_extents :
    gtExtents (gaussTransform_ (resImpl r)) = gtExtents (gaussTransform_ impl);
  completed_gtShape :
    gtShape (gaussTransform_ (resImpl r)) = gtShape (gaussTransform_ impl);
  completed_forceShape :
    densityFittingForce_ (resImpl r) = densityFittingForce_ impl;
  completed_spreadKernel : spreadKernel_ (resImpl r) = spreadKernel_ impl;
  completed_measure : measure_ (resImpl r) = measure_ impl;
  completed_parameters : parameters_ (resImpl r) = parameters_ impl;
  completed_localAtomSet : localAtomSet_ (resImpl r) = localAtomSet_ impl;
  completed_transformation :
    transformationToDensityLattice_ (resImpl r) = transformationToDensityLattice_ impl;
  completed_coordinates :
    transformedCoordinates_ (resImpl r) = transformedCoordinates_ impl;
  completed_forces :
    forces_ (resImpl r)
    = inverseIgnoringZeroScale (scaleOperationOnly (transformationToDensityLattice_ impl))
        (latticeForces impl amplitudes buffer);
  completed_force_length : length (force_ (resOutput r)) = length (force_ out);
  completed_force :
    ∀ slot, force_ (resOutput r) !! slot
            = accumulated (forceConstant_ (parameters_ impl)) slot
                (localIndex (localAtomSet_ impl)) (forces_ (resImpl r))
              <$> force_ out !! slot;
  completed_term :
    term (resOutput r)
    = <[F_COM_PULL := add (term out F_COM_PULL) (energyOf impl buffer)]> (term out);
  completed_calls :
    resCalls r
    = calls ++ [CallGradient]
            ++ replicate (length (transformedCoordinates_ impl)) CallEvaluateForce
            ++ [CallInverseScale; CallSimilarity];
}.

(** An evaluation that runs to its end, and what holds of its result;
    inside the collective it does so whatever summed buffer comes back. *)
Definition evaluationYields (o : res Outcome) (P : Result → Prop) : Prop :=
  match o with
  | Ok (Returned r) => P r
  | Ok (InReduction _ _ resume) =>
      ∀ summed, ∃ r, resume summed = Ok r
                     ∧ gtData (gaussTransform_ (resImpl r)) = summed ∧ P r
  | Err _ => False
  end.

(** the similarity of the density the provider holds *)
Definition similarityScore (impl : Impl) : R :=
  similarity (measureMethod (measure_ impl)) (measureReference (measure_ impl))
    (constView (gaussTransform_ impl)).

(** The slot [F_COM_PULL] has gained minus the similarity times the force
    constant, and no other slot has changed. *)
Definition energyAdded (impl : Impl) (out : ForceProviderOutput) (r : Result) : Prop :=
  term (resOutput r) F_COM_PULL
  = add (term out F_COM_PULL)
        (mul (opp (similarityScore (resImpl r))) (forceConstant_ (parameters_ impl)))
  ∧ ∀ t, t ≠ F_COM_PULL → term (resOutput r) t = term out t.

(** Every local atom's force, times the force constant, has been added to
    the host's force at that atom's index. *)
Definition forcesAdded (impl : Impl) (out : ForceProviderOutput) (r : Result) : Prop :=
  let indices := localIndex (localAtomSet_ impl) in
  let forceConstant := forceConstant_ (parameters_ impl) in
  let forces := forces_ (resImpl r) in
  length forces = length indices
  ∧ length (force_ (resOutput r)) = length (force_ out)
  ∧ (∀ slot, force_ (resOutput r) !! slot
             = accumulated forceConstant slot indices forces <$> force_ out !! slot)
  ∧ (NoDup indices → ∀ i index f,
       indices !! i = Some index → forces !! i = Some f →
       force_ (resOutput r) !! index
       = (λ old, addVec old (scaleVec forceConstant f)) <$> force_ out !! index)
  ∧ (∀ slot, slot ∉ indices → force_ (resOutput r) !! slot = force_ out !! slot).

(** ** The provider over its lifetime *)

(** The states a provider goes through: evaluations, whichever way they
    end, and the host handing it another local atom set when the atoms
    are redistributed over the ranks. *)
Inductive lifetime (start : Impl) : Impl → Prop :=
  | lifetime_start : lifetime start start
  | lifetime_returned impl inp out r :
      lifetime start impl →
      calculateForces impl inp out = Ok (Returned r) →
      lifetime start (resImpl r)
  | lifetime_reduced impl inp out nr buffer resume summed r :
      lifetime start impl →
      calculateForces impl inp out = Ok (InReduction nr buffer resume) →
      resume summed = Ok r →
      lifetime start (resImpl r)
  | lifetime_redistributed impl atoms :
      lifetime start impl →
      lifetime start
        {| parameters_ := parameters_ impl;
           localAtomSet_ := atoms;
           spreadKernel_ := spreadKernel_ impl;
           gaussTransform_ := gaussTransform_ impl;
           measure_ := measure_ impl;
           densityFittingForce_ := densityFittingForce_ impl;
           transformedCoordinates_ := transformedCoordinates_ impl;
           forces_ := forces_ impl;
           amplitudeLookup_ := amplitudeLookup_ impl;
           transformationToDensityLattice_ := transformationToDensityLattice_ impl |}.

(** what is fixed at construction *)
Definition fixedParts (impl : Impl)
  : Shape R * Shape R * Shape R * Extents * DensitySimilarityMeasure :=
  (spreadKernel_ impl, gtShape (gaussTransform_ impl),
   forceShape (densityFittingForce_ impl), gtExtents (gaussTransform_ impl),
   measure_ impl).

(** the kernel shape of a spreading width, a range and a scale *)
Definition kernelShape (sigma nSigma : R) (scale : Vec3 R) : Shape R :=
  mkShape (mkVec (mul sigma (vecX scale)) (mul sigma (vecY scale))
             (mul sigma (vecZ scale)))
          nSigma.

(** ** Spreading and summing *)

(** a list of particles spread, one after the other, on a buffer *)
Definition spreadAll (k : Shape R) (e : Extents) (particles : list (Vec3 R * R))
    (buffer : list R) : list R :=
  foldl (λ b ra, spreadOne k e ra b) buffer particles.

(** a list of particles spread on a zeroed buffer of [n] cells *)
Definition densityOf (k : Shape R) (e : Extents) (n : nat)
    (particles : list (Vec3 R * R)) : list R :=
  spreadAll k e particles (replicate n zero).

(** ** Several ranks *)

(** a rank that holds restrained atoms, all of them inside the host's buffers *)
Definition holdsAtoms (rk : Rank) : Prop :=
  numAtomsLocal (localAtomSet_ (rankImpl rk)) ≠ 0
  ∧ inRange (rankImpl rk) (rankInput rk) (rankOutput rk).

(** a rank of a run on several ranks *)
Definition parallel (rk : Rank) : Prop := PAR (cr_ (rankInput rk)) = true.

Definition particlesOf (rk : Rank) : list (Vec3 R * R) :=
  localParticles (rankImpl rk) (rankInput rk).

(** the buffer a rank hands to [gmx_sumf], and the sum of all of them *)
Definition localBuffer (rk : Rank) : list R :=
  gtData (gaussTransform_ (spread (rankImpl rk) (rankInput rk))).

Definition summedBuffer (ranks : list Rank) : list R :=
  gmx_sumf (localBuffer <$> ranks).

(** two ranks whose Gauss transforms have the same lattice and kernel *)
Definition sameGrid (g : GaussTransform3D) (rk : Rank) : Prop :=
  gtExtents (gaussTransform_ (rankImpl rk)) = gtExtents g
  ∧ gtShape (gaussTransform_ (rankImpl rk)) = gtShape g
  ∧ length (gtData (gaussTransform_ (rankImpl rk))) = length (gtData g).

(** what a rank does when [calculateForces] is called on it *)
Definition outcomeOf (rk : Rank) : Outcome :=
  if decide (numAtomsLocal (localAtomSet_ (rankImpl rk)) = 0) then
    Returned (mkResult (rankImpl rk) (rankOutput rk) [])
  else
    InReduction
      (required_span_size
         (gtExtents (gaussTransform_ (spread (rankImpl rk) (rankInput rk)))))
      (localBuffer rk)
      (afterCommunication (spread (rankImpl rk) (rankInput rk))
         (amplitudesOf (rankImpl rk) (rankInput rk)) (rankOutput rk)
         (callsBeforeCommunication (rankImpl rk) (rankInput rk) ++ [CallSumf])).

(** the number of times an evaluation entered [gmx_sumf] *)
Definition reductionCalls (calls : list Call) : nat :=
  length (filter (λ c, c = CallSumf) calls).

(** ** Between evaluations *)

(** what an evaluation reads of the provider it starts from: everything
    but the contents of the density buffer and of the two scratch vectors *)
Definition configuration (impl : Impl) :=
  (parameters_ impl, localAtomSet_ impl, spreadKernel_ impl,
   gtExtents (gaussTransform_ impl), gtShape (gaussTransform_ impl),
   length (gtData (gaussTransform_ impl)), measure_ impl,
   densityFittingForce_ impl, amplitudeLookup_ impl,
   transformationToDensityLattice_ impl).

(** two evaluations that end the same way: the same fault, the same
    result, or the same buffer handed to [gmx_sumf] and the same result for
    every summed buffer that comes back *)
Definition sameOutcome (o1 o2 : res Outcome) : Prop :=
  match o1, o2 with
  | Ok (Returned r1), Ok (Returned r2) => r1 = r2
  | Ok (InReduction nr1 buffer1 resume1), Ok (InReduction nr2 buffer2 resume2) =>
      nr1 = nr2 ∧ buffer1 = buffer2 ∧ ∀ summed, resume1 summed = resume2 summed
  | Err e1, Err e2 => e1 = e2
  | _, _ => False
  end.

(** a provider from which every evaluation ends as it does from another *)
Definition behavesAs (impl' impl : Impl) : Prop :=
  ∀ inp out, sameOutcome (calculateForces impl' inp out) (calculateForces impl inp out).

(** both scratch vectors have one entry per local atom *)
Definition scratchSized (impl : Impl) : Prop :=
  length (transformedCoordinates_ impl) = numAtomsLocal (localAtomSet_ impl)
  ∧ length (forces_ impl) = numAtomsLocal (localAtomSet_ impl).

(** what an evaluation on a rank without atoms returns *)
Definition untouched (rk : Rank) : Result :=
  mkResult (rankImpl rk) (rankOutput rk) [].

(** ** Back to simulation space *)


End Statements.

(** ** Exact rationals and stand-in collaborators

    A concrete instance on which the definitions can be run: scalars are
    the rationals [Qc], the collaborators are small stand-ins. *)
Module Sample.

#[global] Instance Qc_Scalar : Scalar Qc := {|
  zero := 0%Qc;
  add := Qcplus;
  mul := Qcmult;
  opp := Qcopp;
  div := Qcdiv;
  isZero := λ q, Qeq_bool q 0;
|}.

Definition sumOf (l : list Qc) : Qc := foldr Qcplus 0%Qc l.

#[global] Instance standIns : Collaborators Qc := {|
  t_mdatoms := list Qc;
  SimilarityMethod := unit;
  AmplitudeMethod := unit;
  EnergyTerm := nat;
  F_COM_PULL := 5;
  toLattice t x := vecMap2 Qcmult (vecMap2 Qcplus x (tsTranslation t)) (tsScale t);
  gaussianAt k e r c := if decide (c = 0) then vecX r else 1%Qc;
  evaluateForce k ra d := mkVec (ra.2 * sumOf (data d))%Qc (vecY ra.1) (vecZ ra.1);
  gradient m reference d := reference;
  similarity m reference d := sumOf (zip_with Qcmult (data reference) (data d));
  amplitudeLookup m masses indices := (λ i, default 1%Qc (masses !! i)) <$> indices;
|}.

(** integers as scalars *)
Definition q (z : Z) : Qc := Q2Qc (inject_Z z).

Definition parameters : DensityFittingParameters :=
  mkParameters (q 1) (q 4) () () (q 2).

Definition referenceDensity : Density Qc :=
  mkDensity (mkExtents 1 1 2) [q 1; q 3].

(** a lattice with two cells per unit along X and no extent along Z *)
Definition toDensityLattice : TranslateAndScale Qc :=
  mkTranslateAndScale (mkVec (q 2) (q 1) (q 0)) (mkVec (q 0) (q 0) (q 0)).

Definition positions : list (Vec3 Qc) :=
  [mkVec (q 1) (q 2) (q 3); mkVec (q 0) (q 1) (q 0)].

Definition input (ranks : nat) : ForceProviderInput :=
  mkInput positions [q 3; q 5] (mkCommrec ranks).

Definition output : ForceProviderOutput :=
  mkOutput [mkVec (q 0) (q 0) (q 0); mkVec (q 1) (q 1) (q 1)] (λ _, q 0).

Definition provider (atoms : list nat) : Impl :=
  Impl_ctor parameters referenceDensity toDensityLattice (mkLocalAtomSet atoms).

Definition rank (ranks : nat) (atoms : list nat) : Rank :=
  mkRank (provider atoms) (input ranks) output.

Definition twoRanks : list Rank := [rank 2 [0]; rank 2 [1]].

End Sample.

(** the provider after one evaluation on a single rank *)
Definition sampleEvaluated : Result :=
  match calculateForces (Sample.provider [0; 1]) (Sample.input 1) Sample.output with
  | Ok (Returned r) => r
  | _ => mkResult (Sample.provider [0; 1]) Sample.output []
  end.

(** the sample input with the position of atom 1 moved *)
Definition sampleMovedInput : ForceProviderInput :=
  mkInput [mkVec (Sample.q 1) (Sample.q 2) (Sample.q 3);
           mkVec (Sample.q 7) (Sample.q 7) (Sample.q 7)]
    [Sample.q 3; Sample.q 5] (mkCommrec 1).

(** the same evaluation as [sampleEvaluated], on the output it returned *)
Definition sampleEvaluatedAgain : Result :=
  match calculateForces (Sample.provider [0; 1]) (Sample.input 1)
          (resOutput sampleEvaluated) with
  | Ok (Returned r) => r
  | _ => mkResult (Sample.provider [0; 1]) (resOutput sampleEvaluated) []
  end.





Definition shownBuffer (buffer : list Qc) : list Q := this <$> buffer.

(** one restrained atom on two ranks: the first rank holds it, the second
    holds an empty slice *)
Definition emptySliceRanks : list Rank := [Sample.rank 2 [0]; Sample.rank 2 []].

(** the same atom on a single rank *)
Definition singleRankEvaluated : Result :=
  match calculateForces (Sample.provider [0]) (Sample.input 1) Sample.output with
  | Ok (Returned r) => r
  | _ => mkResult (Sample.provider [0]) Sample.output []
  end.

(** * Proofs *)

Section Proofs.
Context {R : Type} `{!Scalar R} `{!Collaborators R}.

Abbreviation RVec := (Vec3 R).

(** ** Running the loops *)

Lemma pickCoordinates_ok (x : list RVec) (indices : list nat) :
  Forall (λ i, i < length x) indices →
  pickCoordinates x indices = Ok (omap (λ i, x !! i) indices)
  ∧ length (omap (λ i, x !! i) indices) = length indices.
Proof.
  unfold pickCoordinates.
  induction 1 as [|i indices Hi _ [IH1 IH2]]; [done|].
  destruct (lookup_lt_is_Some_2 x i Hi) as [p Hp].
  cbn. rewrite Hp. cbn. rewrite IH1. cbn. by rewrite IH2.
Qed.

Lemma spreadAtoms_ok (g : GaussTransform3D) (coordinates : list RVec)
    (amplitudes : list R) :
  length coordinates ≤ length amplitudes →
  spreadAtoms g coordinates amplitudes
  = Ok (foldl gtAdd g (zip coordinates amplitudes)).
Proof.
  revert g amplitudes.
  induction coordinates as [|r coordinates IH]; intros g [|a amplitudes] Hlen;
    cbn in *; try done; try lia.
  apply IH. lia.
Qed.

Lemma evaluateForces_ok (f : DensityFittingForce) (d : Density R)
    (coordinates : list RVec) (amplitudes : list R) :
  length coordinates ≤ length amplitudes →
  evaluateForces f d coordinates amplitudes
  = Ok ((λ ra, evaluateForce (forceShape f) ra d) <$> zip coordinates amplitudes).
Proof.
  revert amplitudes.
  induction coordinates as [|r coordinates IH]; intros [|a amplitudes] Hlen;
    cbn in *; try done; try lia.
  rewrite IH by lia. done.
Qed.

Lemma addForces_ok (forceConstant : R) (indices : list nat) (forces force : list RVec) :
  Forall (λ i, i < length force) indices →
  length indices ≤ length forces →
  ∃ force', addForces forceConstant indices forces force = Ok force'
            ∧ length force' = length force
            ∧ ∀ slot, force' !! slot
                      = accumulated forceConstant slot indices forces <$> force !! slot.
Proof.
  revert forces force.
  induction indices as [|i indices IH]; intros forces force Hin Hlen.
  - exists force. cbn. split_and!; [done..|].
    intros slot. by destruct (force !! slot).
  - destruct forces as [|f forces]; cbn in Hlen; [lia|].
    apply Forall_cons in Hin as [Hi Hin].
    destruct (lookup_lt_is_Some_2 force i Hi) as [old Hold].
    cbn. rewrite Hold.
    destruct (IH forces (<[i:=addVec old (scaleVec forceConstant f)]> force))
      as (force' & Hrun & Hlen' & Hslot).
    { by rewrite length_insert. }
    { lia. }
    exists force'. split_and!; [done| by rewrite Hlen', length_insert |].
    intros slot. rewrite Hslot. unfold accumulated at 2. cbn.
    destruct (decide (i = slot)) as [->|Hne].
    + rewrite list_lookup_insert_eq by done. by rewrite Hold.
    + by rewrite list_lookup_insert_ne.
Qed.

Lemma accumulated_absent (forceConstant : R) (slot : nat) (indices : list nat)
    (forces : list RVec) (old : RVec) :
  slot ∉ indices → accumulated forceConstant slot indices forces old = old.
Proof.
  unfold accumulated. revert forces old.
  induction indices as [|i indices IH]; intros [|f forces] old Hnot; cbn; try done.
  apply not_elem_of_cons in Hnot as [Hne Hnot].
  rewrite decide_False by done. by apply IH.
Qed.

Lemma accumulated_once (forceConstant : R) (indices : list nat) (forces : list RVec)
    (old : RVec) (i slot : nat) (f : RVec) :
  NoDup indices → indices !! i = Some slot → forces !! i = Some f →
  accumulated forceConstant slot indices forces old
  = addVec old (scaleVec forceConstant f).
Proof.
  unfold accumulated. revert forces old i.
  induction indices as [|j indices IH]; intros [|g forces] old i Hnd Hi Hf;
    try done.
  apply NoDup_cons in Hnd as [Hj Hnd].
  destruct i as [|i]; cbn in *.
  - simplify_eq. rewrite decide_True by done.
    by apply (accumulated_absent forceConstant slot indices forces).
  - rewrite decide_False.
    + by apply (IH forces old i).
    + intros ->. apply Hj. by eapply list_elem_of_lookup_2.
Qed.

(** ** One evaluation, step by step *)

Lemma foldl_gtAdd_frame (g : GaussTransform3D) (particles : list (RVec * R)) :
  gtExtents (foldl gtAdd g particles) = gtExtents g
  ∧ gtShape (foldl gtAdd g particles) = gtShape g
  ∧ length (gtData (foldl gtAdd g particles)) = length (gtData g).
Proof.
  revert g. induction particles as [|ra particles IH]; intros g; [done|].
  cbn. destruct (IH (gtAdd g ra)) as (-> & -> & ->). cbn.
  unfold spreadOne. by rewrite length_imap.
Qed.

Lemma rasterize_frame (g : GaussTransform3D) (particles : list (RVec * R)) :
  gtExtents (rasterize g particles) = gtExtents g
  ∧ gtShape (rasterize g particles) = gtShape g
  ∧ length (gtData (rasterize g particles)) = length (gtData g).
Proof.
  unfold rasterize. destruct (foldl_gtAdd_frame (setZero g) particles) as (-> & -> & ->).
  cbn. by rewrite length_replicate.
Qed.

Lemma length_inverseIgnoringZeroScale (s : ScaleCoordinates R) (forces : list RVec) :
  length (inverseIgnoringZeroScale s forces) = length forces.
Proof. unfold inverseIgnoringZeroScale. by rewrite length_fmap. Qed.

Lemma afterCommunication_ok (impl : Impl) (amplitudes : list R)
    (out : ForceProviderOutput) (calls : list Call) (buffer : list R) :
  length (transformedCoordinates_ impl) ≤ length amplitudes →
  length (localIndex (localAtomSet_ impl)) ≤ length (transformedCoordinates_ impl) →
  Forall (λ i, i < length (force_ out)) (localIndex (localAtomSet_ impl)) →
  ∃ r, afterCommunication impl amplitudes out calls buffer = Ok r
       ∧ completed impl amplitudes out calls buffer r.
Proof.
  intros Hamp Hidx Hforce. unfold afterCommunication.
  rewrite evaluateForces_ok by done. cbn.
  destruct (addForces_ok (forceConstant_ (parameters_ impl))
              (localIndex (localAtomSet_ impl))
              (inverseIgnoringZeroScale
                 (scaleOperationOnly (transformationToDensityLattice_ impl))
                 (latticeForces impl amplitudes buffer))
              (force_ out)) as (force' & Hrun & Hlen & Hslot).
  { done. }
  { rewrite length_inverseIgnoringZeroScale. unfold latticeForces.
    rewrite length_fmap, length_zip. lia. }
  unfold latticeForces, scoredDensity, constView in *. cbn in *.
  rewrite Hrun. cbn.
  eexists. split; [done|]. by constructor.
Qed.

Lemma calculateForces_ok (impl : Impl) (inp : ForceProviderInput)
    (out : ForceProviderOutput) :
  numAtomsLocal (localAtomSet_ impl) ≠ 0 →
  inRange impl inp out →
  calculateForces impl inp out
  = if PAR (cr_ inp) then
      Ok (InReduction
            (required_span_size (gtExtents (gaussTransform_ (spread impl inp))))
            (gtData (gaussTransform_ (spread impl inp)))
            (afterCommunication (spread impl inp) (amplitudesOf impl inp) out
               (callsBeforeCommunication impl inp ++ [CallSumf])))
    else
      Returned <$> afterCommunication (spread impl inp) (amplitudesOf impl inp) out
                     (callsBeforeCommunication impl inp)
                     (gtData (gaussTransform_ (spread impl inp))).
Proof.
  intros Hn (Hx & _ & Hamp). unfold calculateForces.
  rewrite decide_False by done.
  destruct (pickCoordinates_ok _ _ Hx) as [-> Hlen]. cbn.
  rewrite spreadAtoms_ok by (rewrite length_fmap, Hlen; exact Hamp).
  cbn. done.
Qed.

Lemma length_localCoordinates (impl : Impl) (inp : ForceProviderInput)
    (out : ForceProviderOutput) :
  inRange impl inp out →
  length (localCoordinates impl inp) = length (localIndex (localAtomSet_ impl)).
Proof.
  intros (Hx & _ & _). unfold localCoordinates. rewrite length_fmap.
  by destruct (pickCoordinates_ok _ _ Hx) as [_ ->].
Qed.

Lemma afterCommunication_spread_ok (impl : Impl) (inp : ForceProviderInput)
    (out : ForceProviderOutput) (calls : list Call) (buffer : list R) :
  inRange impl inp out →
  ∃ r, afterCommunication (spread impl inp) (amplitudesOf impl inp) out calls buffer
       = Ok r
       ∧ completed (spread impl inp) (amplitudesOf impl inp) out calls buffer r.
Proof.
  intros Hin. pose proof (length_localCoordinates _ _ _ Hin) as Hlen.
  destruct Hin as (Hx & Hf & Hamp).
  apply afterCommunication_ok; cbn; [|lia|done].
  rewrite Hlen. exact Hamp.
Qed.

Lemma calculateForces_yields (impl : Impl) (inp : ForceProviderInput)
    (out : ForceProviderOutput) :
  numAtomsLocal (localAtomSet_ impl) ≠ 0 →
  inRange impl inp out →
  evaluationYields (calculateForces impl inp out)
    (λ r, ∃ calls,
        completed (spread impl inp) (amplitudesOf impl inp) out calls
          (gtData (gaussTransform_ (resImpl r))) r).
Proof.
  intros Hn Hin. rewrite calculateForces_ok by done.
  pose proof (λ calls buffer,
    afterCommunication_spread_ok impl inp out calls buffer Hin) as Hafter.
  destruct (PAR (cr_ inp)).
  - intros summed. destruct (Hafter (callsBeforeCommunication impl inp ++ [CallSumf]) summed)
      as (r & Hr & Hc).
    exists r. split_and!; [done|by destruct Hc|].
    eexists. by rewrite (completed_buffer _ _ _ _ _ _ Hc).
  - destruct (Hafter (callsBeforeCommunication impl inp)
                (gtData (gaussTransform_ (spread impl inp))))
      as (r & Hr & Hc).
    rewrite Hr. cbn. eexists. by rewrite (completed_buffer _ _ _ _ _ _ Hc).
Qed.

Lemma evaluationYields_impl (o : res Outcome) (P Q : Result → Prop) :
  (∀ r, P r → Q r) → evaluationYields o P → evaluationYields o Q.
Proof.
  intros HPQ. destruct o as [[r|nr buffer resume]|e]; cbn; [auto| |done].
  intros Hall summed. destruct (Hall summed) as (r & Hr & Hb & HP). eauto.
Qed.

(** ** The empty atom set *)

(** C4: on a rank whose local atom set is empty, an evaluation returns at
    once: the provider and the host's output (forces and energy terms) come
    back as they were passed in, and no collaborator is called. *)
Theorem empty_set_leaves_output_unchanged (impl : Impl) (inp : ForceProviderInput)
    (out : ForceProviderOutput) :
  numAtomsLocal (localAtomSet_ impl) = 0 →
  calculateForces impl inp out = Ok (Returned (mkResult impl out [])).
Proof.
  intros Hn. unfold calculateForces. by rewrite decide_True.
Qed.

(** ** Energy and forces of one evaluation *)

Lemma completed_score (impl : Impl) (amplitudes : list R) (out : ForceProviderOutput)
    (calls : list Call) (buffer : list R) (r : Result) :
  completed impl amplitudes out calls buffer r →
  similarityScore (resImpl r)
  = similarity (measureMethod (measure_ impl)) (measureReference (measure_ impl))
      (scoredDensity impl buffer).
Proof.
  intros Hc. unfold similarityScore, constView, scoredDensity.
  by rewrite (completed_measure _ _ _ _ _ _ Hc), (completed_extents _ _ _ _ _ _ Hc),
    (completed_buffer _ _ _ _ _ _ Hc).
Qed.

Lemma completed_energyAdded (impl : Impl) (inp : ForceProviderInput)
    (out : ForceProviderOutput) (calls : list Call) (buffer : list R) (r : Result) :
  completed (spread impl inp) (amplitudesOf impl inp) out calls buffer r →
  energyAdded impl out r.
Proof.
  intros Hc. unfold energyAdded.
  rewrite (completed_score _ _ _ _ _ _ Hc), (completed_term _ _ _ _ _ _ Hc).
  split.
  - by rewrite fn_lookup_insert.
  - intros t Ht. by rewrite fn_lookup_insert_ne.
Qed.

(** C2: an evaluation on a rank that holds at least one restrained atom adds
    exactly [-similarity * forceConstant_] to the energy term
    [F_COM_PULL], the similarity being that of the density buffer as it is
    after the communication step, and changes no other energy term. *)
Theorem energy_term_gains_scaled_similarity (impl : Impl) (inp : ForceProviderInput)
    (out : ForceProviderOutput) :
  numAtomsLocal (localAtomSet_ impl) ≠ 0 →
  inRange impl inp out →
  evaluationYields (calculateForces impl inp out) (energyAdded impl out).
Proof.
  intros Hn Hin.
  eapply evaluationYields_impl; [|by apply calculateForces_yields].
  intros r [calls Hc]. by eapply completed_energyAdded.
Qed.

(** C3: for each local restrained atom the evaluation adds
    [forceConstant_] times that atom's force to the host's force buffer at
    the atom's index, the i-th force going to the i-th index of the local
    index list; the other entries of the buffer stay as they were. *)
Theorem forces_added_at_local_indices (impl : Impl) (inp : ForceProviderInput)
    (out : ForceProviderOutput) :
  numAtomsLocal (localAtomSet_ impl) ≠ 0 →
  inRange impl inp out →
  evaluationYields (calculateForces impl inp out) (forcesAdded impl out).
Proof.
  intros Hn Hin.
  eapply evaluationYields_impl; [|by apply calculateForces_yields].
  intros r [calls Hc]. unfold forcesAdded.
  pose proof (completed_force _ _ _ _ _ _ Hc) as Hslot. cbn in Hslot.
  split_and!.
  - rewrite (completed_forces _ _ _ _ _ _ Hc), length_inverseIgnoringZeroScale.
    unfold latticeForces. cbn. rewrite length_fmap.
    unfold localParticles, amplitudesOf. rewrite length_zip.
    rewrite (length_localCoordinates _ _ _ Hin).
    destruct Hin as (_ & _ & Hamp). lia.
  - apply (completed_force_length _ _ _ _ _ _ Hc).
  - done.
  - intros Hnd i index f Hi Hf. rewrite Hslot.
    destruct (force_ out !! index) as [old|]; [|done]. cbn.
    f_equal. by eapply accumulated_once.
  - intros slot Hnot. rewrite Hslot.
    destruct (force_ out !! slot) as [old|]; [|done]. cbn.
    f_equal. by apply accumulated_absent.
Qed.

(** ** Back to simulation space *)


(** ** The provider over its lifetime *)

Lemma spreadAtoms_frame (g g' : GaussTransform3D) (coordinates : list (Vec3 R))
    (amplitudes : list R) :
  spreadAtoms g coordinates amplitudes = Ok g' →
  gtShape g' = gtShape g ∧ gtExtents g' = gtExtents g.
Proof.
  revert g amplitudes.
  induction coordinates as [|c coordinates IH]; intros g [|a amplitudes] Hrun;
    cbn in Hrun; simplify_eq; [done..|].
  by destruct (IH _ _ Hrun) as [-> ->].
Qed.

Lemma afterCommunication_fixedParts (impl : Impl) (amplitudes : list R)
    (out : ForceProviderOutput) (calls : list Call) (buffer : list R) (r : Result) :
  afterCommunication impl amplitudes out calls buffer = Ok r →
  fixedParts (resImpl r) = fixedParts impl.
Proof.
  unfold afterCommunication. intros Hrun.
  destruct (evaluateForces _ _ _ _) as [forces|]; cbn in Hrun; [|done].
  destruct (addForces _ _ _ _) as [force|]; cbn in Hrun; [|done].
  by injection Hrun as <-.
Qed.

Lemma calculateForces_fixedParts (impl : Impl) (inp : ForceProviderInput)
    (out : ForceProviderOutput) (o : Outcome) :
  calculateForces impl inp out = Ok o →
  match o with
  | Returned r => fixedParts (resImpl r) = fixedParts impl
  | InReduction _ _ resume =>
      ∀ summed r, resume summed = Ok r → fixedParts (resImpl r) = fixedParts impl
  end.
Proof.
  unfold calculateForces. intros Hrun.
  destruct (decide _); [by injection Hrun as <-|].
  destruct (pickCoordinates _ _) as [picked|]; [|done].
  cbn [mbind res_bind] in Hrun.
  destruct (spreadAtoms _ _ _) as [g|] eqn:Hspread; [|done].
  cbn [mbind res_bind] in Hrun.
  apply spreadAtoms_frame in Hspread as [Hshape Hextents].
  cbn in Hshape, Hextents.
  destruct (PAR _).
  - injection Hrun as <-. intros summed r Hr.
    apply afterCommunication_fixedParts in Hr. rewrite Hr.
    unfold fixedParts. cbn. by rewrite Hshape, Hextents.
  - destruct (afterCommunication _ _ _ _ _) as [r|] eqn:Hr; [|done].
    injection Hrun as <-. apply afterCommunication_fixedParts in Hr. rewrite Hr.
    unfold fixedParts. cbn. by rewrite Hshape, Hextents.
Qed.

Lemma lifetime_fixedParts (start impl : Impl) :
  lifetime start impl → fixedParts impl = fixedParts start.
Proof.
  induction 1 as [|impl inp out r _ IH Hrun
                  |impl inp out nr buffer resume summed r _ IH Hrun Hr
                  |impl atoms _ IH].
  - done.
  - apply calculateForces_fixedParts in Hrun. by rewrite Hrun.
  - apply calculateForces_fixedParts in Hrun. by rewrite (Hrun _ _ Hr).
  - done.
Qed.

(** C9: the Gauss transform and the density-fitting force are built from
    the one kernel shape [makeSpreadKernel] derives at construction; its
    sigma on each axis is the spreading width scaled by the scale-only
    part of the transformation, its range in multiples of sigma is the
    parameter unchanged, and no evaluation or redistribution of the atoms
    alters it in either of them. *)
Theorem kernel_shape_shared_and_fixed (parameters : DensityFittingParameters)
    (referenceDensity : Density R) (transformation : TranslateAndScale R)
    (atoms : LocalAtomSet) (impl : Impl) :
  lifetime (Impl_ctor parameters referenceDensity transformation atoms) impl →
  let shape :=
    kernelShape (gaussianTransformSpreadingWidth_ parameters)
      (gaussianTransformSpreadingRangeInMultiplesOfWidth_ parameters)
      (tsScale transformation) in
  makeSpreadKernel (gaussianTransformSpreadingWidth_ parameters)
    (gaussianTransformSpreadingRangeInMultiplesOfWidth_ parameters)
    (scaleOperationOnly transformation) = shape
  ∧ spreadKernel_ impl = shape
  ∧ gtShape (gaussTransform_ impl) = shape
  ∧ forceShape (densityFittingForce_ impl) = shape.
Proof.
  intros Hlife shape. apply lifetime_fixedParts in Hlife.
  unfold fixedParts in Hlife. cbn in Hlife.
  injection Hlife as Hkernel Hgauss Hforce _ _.
  by rewrite Hkernel, Hgauss, Hforce.
Qed.

(** ** Spreading *)

Lemma spreadAll_cons (k : Shape R) (e : Extents) (ra : Vec3 R * R)
    (particles : list (Vec3 R * R)) (buffer : list R) :
  spreadAll k e (ra :: particles) buffer
  = spreadAll k e particles (spreadOne k e ra buffer).
Proof. done. Qed.

Lemma gtData_foldl_gtAdd (g : GaussTransform3D) (particles : list (Vec3 R * R)) :
  gtData (foldl gtAdd g particles)
  = spreadAll (gtShape g) (gtExtents g) particles (gtData g).
Proof.
  revert g. induction particles as [|ra particles IH]; intros g; [done|].
  rewrite spreadAll_cons. cbn. by rewrite IH.
Qed.

Lemma gtData_rasterize (g : GaussTransform3D) (particles : list (Vec3 R * R)) :
  gtData (rasterize g particles)
  = densityOf (gtShape g) (gtExtents g) (length (gtData g)) particles.
Proof. unfold rasterize. by rewrite gtData_foldl_gtAdd. Qed.

Lemma length_spreadAll (k : Shape R) (e : Extents) (particles : list (Vec3 R * R))
    (buffer : list R) :
  length (spreadAll k e particles buffer) = length buffer.
Proof.
  revert buffer. induction particles as [|ra particles IH]; intros buffer; [done|].
  rewrite spreadAll_cons, IH. unfold spreadOne. by rewrite length_imap.
Qed.

Lemma spreadAll_app (k : Shape R) (e : Extents) (ps qs : list (Vec3 R * R))
    (buffer : list R) :
  spreadAll k e (ps ++ qs) buffer = spreadAll k e qs (spreadAll k e ps buffer).
Proof. unfold spreadAll. by rewrite foldl_app. Qed.

(** ** Several ranks *)

Lemma traverse_ok {A B} (f : A → res B) (g : A → B) (l : list A) :
  Forall (λ a, f a = Ok (g a)) l → traverse f l = Ok (g <$> l).
Proof.
  induction 1 as [|a l Ha _ IH]; [done|]. cbn. by rewrite Ha, IH.
Qed.

Lemma traverse_Forall2 {A B} (f : A → res B) (P : A → B → Prop) (l : list A) :
  Forall (λ a, ∃ b, f a = Ok b ∧ P a b) l →
  ∃ bs, traverse f l = Ok bs ∧ Forall2 P l bs.
Proof.
  induction 1 as [|a l (b & Hb & HP) _ (bs & Hbs & HPs)].
  - by exists [].
  - exists (b :: bs). cbn. rewrite Hb, Hbs. split; [done|]. by constructor.
Qed.

Lemma traverse_fmap {A B C} (f : B → res C) (h : A → B) (l : list A) :
  traverse f (h <$> l) = traverse (f ∘ h) l.
Proof. induction l as [|a l IH]; [done|]. cbn. by rewrite IH. Qed.

Lemma calculateForces_outcomeOf (rk : Rank) :
  parallel rk →
  inRange (rankImpl rk) (rankInput rk) (rankOutput rk) →
  calculateForces (rankImpl rk) (rankInput rk) (rankOutput rk) = Ok (outcomeOf rk).
Proof.
  intros Hpar Hin. unfold outcomeOf. destruct (decide _) as [Hn|Hn].
  - unfold calculateForces. by rewrite decide_True.
  - rewrite calculateForces_ok by done. by rewrite Hpar.
Qed.

Lemma outcomes_parallel (ranks : list Rank) :
  Forall (λ rk, parallel rk ∧ inRange (rankImpl rk) (rankInput rk) (rankOutput rk))
    ranks →
  traverse (λ rk, calculateForces (rankImpl rk) (rankInput rk) (rankOutput rk)) ranks
  = Ok (outcomeOf <$> ranks).
Proof.
  intros Hall. apply traverse_ok. eapply Forall_impl; [done|].
  intros rk [Hpar Hin]. by apply calculateForces_outcomeOf.
Qed.

(** Every rank holds atoms: all of them enter [gmx_sumf], and all of them
    resume with the sum of the local buffers. *)
Lemma evaluateOnAllRanks_parallel (ranks : list Rank) :
  Forall (λ rk, holdsAtoms rk ∧ parallel rk) ranks →
  ∃ results,
    evaluateOnAllRanks ranks = Ok results
    ∧ Forall2 (λ rk r,
        completed (spread (rankImpl rk) (rankInput rk))
          (amplitudesOf (rankImpl rk) (rankInput rk)) (rankOutput rk)
          (callsBeforeCommunication (rankImpl rk) (rankInput rk) ++ [CallSumf])
          (summedBuffer ranks) r) ranks results.
Proof.
  intros Hall. unfold evaluateOnAllRanks.
  rewrite outcomes_parallel.
  2:{ eapply Forall_impl; [done|]. by intros rk [[_ Hin] Hpar]. }
  cbn [mbind res_bind].
  destruct ranks as [|rk0 ranks]; [by exists []|].
  set (all := rk0 :: ranks) in *.
  assert (mapM returnedOf (outcomeOf <$> all) = None) as ->.
  { apply mapM_None_2, Exists_cons_hd. unfold outcomeOf.
    apply Forall_cons in Hall as [[[Hn _] _] _]. by rewrite decide_False. }
  assert (mapM reductionOf (outcomeOf <$> all)
          = Some ((λ rk, (localBuffer rk,
                    afterCommunication (spread (rankImpl rk) (rankInput rk))
                      (amplitudesOf (rankImpl rk) (rankInput rk)) (rankOutput rk)
                      (callsBeforeCommunication (rankImpl rk) (rankInput rk)
                         ++ [CallSumf]))) <$> all)) as ->.
  { apply mapM_Some_2, Forall2_fmap, Forall_Forall2_diag.
    eapply Forall_impl; [done|]. intros rk [[Hn _] _]. unfold outcomeOf.
    by rewrite decide_False. }
  rewrite <- list_fmap_compose, traverse_fmap.
  change (gmx_sumf _) with (summedBuffer all).
  apply traverse_Forall2. eapply Forall_impl; [done|].
  intros rk [[Hn Hin] Hpar]. by apply afterCommunication_spread_ok.
Qed.

(** One rank holds atoms and another holds none: the first waits in
    [gmx_sumf] for a call the second never makes. *)
Lemma empty_rank_breaks_collective (ranks : list Rank) (rk0 rk1 : Rank) :
  Forall (λ rk, parallel rk ∧ inRange (rankImpl rk) (rankInput rk) (rankOutput rk))
    ranks →
  rk0 ∈ ranks → numAtomsLocal (localAtomSet_ (rankImpl rk0)) ≠ 0 →
  rk1 ∈ ranks → numAtomsLocal (localAtomSet_ (rankImpl rk1)) = 0 →
  evaluateOnAllRanks ranks = Err CollectiveMismatch.
Proof.
  intros Hall H0 Hn0 H1 Hn1. unfold evaluateOnAllRanks.
  rewrite outcomes_parallel by done. cbn [mbind res_bind].
  assert (mapM returnedOf (outcomeOf <$> ranks) = None) as ->.
  { apply mapM_None_2, Exists_exists. exists (outcomeOf rk0). split.
    - by apply list_elem_of_fmap_2.
    - unfold outcomeOf. by rewrite decide_False. }
  assert (mapM reductionOf (outcomeOf <$> ranks) = None) as ->; [|done].
  apply mapM_None_2, Exists_exists. exists (outcomeOf rk1). split.
  - by apply list_elem_of_fmap_2.
  - unfold outcomeOf. by rewrite decide_True.
Qed.

Lemma reductionCalls_app (a b : list Call) :
  reductionCalls (a ++ b) = reductionCalls a + reductionCalls b.
Proof. unfold reductionCalls. by rewrite filter_app, length_app. Qed.

Lemma reductionCalls_cons_ne (c : Call) (l : list Call) :
  c ≠ CallSumf → reductionCalls (c :: l) = reductionCalls l.
Proof. intros Hc. unfold reductionCalls. by rewrite filter_cons_False. Qed.

Lemma reductionCalls_replicate (n : nat) (c : Call) :
  c ≠ CallSumf → reductionCalls (replicate n c) = 0.
Proof.
  intros Hc. unfold reductionCalls. induction n as [|n IH]; [done|].
  rewrite replicate_S, filter_cons_False; done.
Qed.

(** A rank that holds atoms enters [gmx_sumf] once, after the atoms are
    spread and before the gradient is taken. *)
Lemma reduction_once_before_gradient (rk : Rank) :
  holdsAtoms rk → parallel rk →
  evaluationYields (calculateForces (rankImpl rk) (rankInput rk) (rankOutput rk))
    (λ r, reductionCalls (resCalls r) = 1
          ∧ ∃ before after,
              resCalls r = before ++ [CallSumf; CallGradient] ++ after
              ∧ CallGradient ∉ before).
Proof.
  intros [Hn Hin] Hpar. rewrite calculateForces_ok by done. rewrite Hpar.
  intros summed.
  destruct (afterCommunication_spread_ok (rankImpl rk) (rankInput rk) (rankOutput rk)
              (callsBeforeCommunication (rankImpl rk) (rankInput rk) ++ [CallSumf])
              summed Hin) as (r & Hr & Hc).
  exists r. split_and!; [done|by destruct Hc|..].
  - rewrite (completed_calls _ _ _ _ _ _ Hc). unfold callsBeforeCommunication.
    rewrite (reductionCalls_app (_ ++ [CallSumf])), (reductionCalls_app [CallGradient]),
      (reductionCalls_app (replicate _ _)), (reductionCalls_app (_ :: _) [CallSumf]),
      reductionCalls_cons_ne, !reductionCalls_replicate by done.
    done.
  - rewrite (completed_calls _ _ _ _ _ _ Hc).
    exists (callsBeforeCommunication (rankImpl rk) (rankInput rk)).
    eexists. rewrite <- app_assoc. split; [done|].
    unfold callsBeforeCommunication.
    intros [?|[? _]%elem_of_replicate]%elem_of_cons; done.
Qed.

(** When the indices are in range, every rank that holds atoms adds to
    its energy term [F_COM_PULL] the whole of [-similarity * forceConstant_]
    for the buffer it resumes from [gmx_sumf] with; when every rank holds
    atoms the collective completes and that buffer is, on every rank alike,
    the sum of the buffers of all ranks. *)
Lemma every_rank_adds_the_whole_energy (ranks : list Rank) :
  Forall (λ rk, parallel rk ∧ inRange (rankImpl rk) (rankInput rk) (rankOutput rk))
    ranks →
  (∀ rk, rk ∈ ranks → numAtomsLocal (localAtomSet_ (rankImpl rk)) ≠ 0 →
     evaluationYields
       (calculateForces (rankImpl rk) (rankInput rk) (rankOutput rk))
       (energyAdded (rankImpl rk) (rankOutput rk)))
  ∧ (Forall (λ rk, numAtomsLocal (localAtomSet_ (rankImpl rk)) ≠ 0) ranks →
     ∃ results,
       evaluateOnAllRanks ranks = Ok results
       ∧ Forall2 (λ rk r,
           gtData (gaussTransform_ (resImpl r)) = summedBuffer ranks
           ∧ energyAdded (rankImpl rk) (rankOutput rk) r) ranks results).
Proof.
  intros Hranks. split.
  - intros rk Hrk Hn.
    destruct (proj1 (Forall_forall _ _) Hranks rk Hrk) as [_ Hin].
    eapply evaluationYields_impl; [|by apply calculateForces_yields].
    intros r [calls Hc]. by eapply completed_energyAdded.
  - intros Hatoms.
    destruct (evaluateOnAllRanks_parallel ranks) as (results & Hrun & Hres).
    { apply Forall_and. split; [apply Forall_and; split|].
      - done.
      - eapply Forall_impl; [exact Hranks|]. by intros rk [_ Hin].
      - eapply Forall_impl; [exact Hranks|]. by intros rk [Hpar _]. }
    exists results. split; [done|].
    eapply Forall2_impl; [exact Hres|]. intros rk r Hc.
    split; [exact (completed_buffer _ _ _ _ _ _ Hc)|].
    exact (completed_energyAdded _ _ _ _ _ _ Hc).
Qed.

(** ** Between evaluations *)

Lemma spreadAtoms_length (g g' : GaussTransform3D) (coordinates : list RVec)
    (amplitudes : list R) :
  spreadAtoms g coordinates amplitudes = Ok g' →
  length (gtData g') = length (gtData g) ∧ length coordinates ≤ length amplitudes.
Proof.
  revert g amplitudes.
  induction coordinates as [|c coordinates IH]; intros g [|a amplitudes] Hrun;
    cbn in Hrun; try done.
  - injection Hrun as <-. split; [done|cbn; lia].
  - injection Hrun as <-. split; [done|cbn; lia].
  - destruct (IH _ _ Hrun) as [-> Hlen]. cbn. unfold spreadOne.
    rewrite length_imap. split; [done|lia].
Qed.

Lemma afterCommunication_buffer (impl : Impl) (amplitudes : list R)
    (out : ForceProviderOutput) (calls : list Call) (buffer : list R) (r : Result) :
  afterCommunication impl amplitudes out calls buffer = Ok r →
  gaussTransform_ (resImpl r)
  = mkGaussTransform3D (gtExtents (gaussTransform_ impl))
      (gtShape (gaussTransform_ impl)) buffer.
Proof.
  unfold afterCommunication. intros Hrun.
  destruct (evaluateForces _ _ _ _) as [forces|]; cbn in Hrun; [|done].
  destruct (addForces _ _ _ _) as [force|]; cbn in Hrun; [|done].
  by injection Hrun as <-.
Qed.

Lemma afterCommunication_configuration (impl : Impl) (amplitudes : list R)
    (out : ForceProviderOutput) (calls : list Call) (buffer : list R) (r : Result) :
  afterCommunication impl amplitudes out calls buffer = Ok r →
  length buffer = length (gtData (gaussTransform_ impl)) →
  configuration (resImpl r) = configuration impl.
Proof.
  unfold afterCommunication. intros Hrun Hlen.
  destruct (evaluateForces _ _ _ _) as [forces|]; cbn in Hrun; [|done].
  destruct (addForces _ _ _ _) as [force|]; cbn in Hrun; [|done].
  injection Hrun as <-. unfold configuration. cbn. by rewrite Hlen.
Qed.

Lemma afterCommunication_calls (impl : Impl) (amplitudes : list R)
    (out : ForceProviderOutput) (calls calls' : list Call) (buffer : list R)
    (r : Result) :
  afterCommunication impl amplitudes out calls buffer = Ok r →
  ∃ r', afterCommunication impl amplitudes out calls' buffer = Ok r'
        ∧ resImpl r' = resImpl r ∧ resOutput r' = resOutput r.
Proof.
  unfold afterCommunication. intros Hrun.
  destruct (evaluateForces _ _ _ _) as [forces|]; cbn in Hrun |- *; [|done].
  destruct (addForces _ _ _ _) as [force|]; cbn in Hrun |- *; [|done].
  injection Hrun as <-. eexists. split; [reflexivity|]. by split.
Qed.

Lemma sameOutcome_refl (o : res Outcome) : sameOutcome o o.
Proof. by destruct o as [[r|nr buffer resume]|e]. Qed.

Lemma sameOutcome_Returned (o : res Outcome) (r : Result) :
  sameOutcome o (Ok (Returned r)) → o = Ok (Returned r).
Proof. destruct o as [[r'|nr buffer resume]|e]; cbn; [by intros ->|done..]. Qed.

(** An evaluation on a provider that holds atoms reads nothing of it but
    its configuration. *)
Lemma calculateForces_configuration (impl impl' : Impl) (inp : ForceProviderInput)
    (out : ForceProviderOutput) :
  configuration impl' = configuration impl →
  numAtomsLocal (localAtomSet_ impl) ≠ 0 →
  sameOutcome (calculateForces impl' inp out) (calculateForces impl inp out).
Proof.
  destruct impl as [p a k [e s d] m f tc fo al t].
  destruct impl' as [p' a' k' [e' s' d'] m' f' tc' fo' al' t'].
  unfold configuration. cbn.
  intros [= -> -> -> -> -> Hlen -> -> -> ->] Hn.
  unfold calculateForces. cbn [localAtomSet_]. rewrite !decide_False by done.
  cbn [x_ localAtomSet_ transformationToDensityLattice_ amplitudeLookup_
       gaussTransform_].
  destruct (pickCoordinates _ _) as [picked|e0]; [|done].
  cbn [mbind res_bind]. unfold setZero. cbn [gtExtents gtShape gtData].
  rewrite Hlen.
  destruct (spreadAtoms _ _ _) as [g|e0]; [|done].
  cbn [mbind res_bind]. destruct (PAR _).
  - cbn. split_and!; [done..|]. intros summed. reflexivity.
  - unfold afterCommunication. cbn.
    destruct (evaluateForces _ _ _ _) as [forces|e0]; cbn; [|done].
    destruct (addForces _ _ _ _) as [force|e0]; cbn; done.
Qed.

(** An evaluation hands the configuration on as it found it. *)
Lemma calculateForces_keeps_configuration (impl : Impl) (inp : ForceProviderInput)
    (out : ForceProviderOutput) (o : Outcome) :
  calculateForces impl inp out = Ok o →
  match o with
  | Returned r => configuration (resImpl r) = configuration impl
  | InReduction _ buffer resume =>
      ∀ summed r, resume summed = Ok r → length summed = length buffer →
                  configuration (resImpl r) = configuration impl
  end.
Proof.
  unfold calculateForces. intros Hrun.
  destruct (decide _); [by injection Hrun as <-|].
  destruct (pickCoordinates _ _) as [picked|]; [|done].
  cbn [mbind res_bind] in Hrun.
  destruct (spreadAtoms _ _ _) as [g|] eqn:Hspread; [|done].
  cbn [mbind res_bind] in Hrun.
  pose proof (spreadAtoms_frame _ _ _ _ Hspread) as [Hshape Hextents].
  apply spreadAtoms_length in Hspread as [Hlen _].
  cbn in Hshape, Hextents, Hlen. rewrite length_replicate in Hlen.
  destruct (PAR _).
  - injection Hrun as <-. intros summed r Hr Hsummed.
    apply afterCommunication_configuration in Hr; [|cbn; congruence].
    rewrite Hr. unfold configuration. cbn. by rewrite Hshape, Hextents, Hlen.
  - destruct (afterCommunication _ _ _ _ _) as [r|] eqn:Hr; [|done].
    injection Hrun as <-.
    apply afterCommunication_configuration in Hr; [|done].
    rewrite Hr. unfold configuration. cbn. by rewrite Hshape, Hextents, Hlen.
Qed.

(** X1: the scratch vectors follow the atom count.  The public constructor
    sizes [transformedCoordinates_] to the number of local atoms, and every
    evaluation on a non-empty atom set leaves [transformedCoordinates_] and
    [forces_] with exactly one entry per local atom, whatever they held
    before. *)
Theorem scratch_vectors_follow_atom_count (parameters : DensityFittingParameters)
    (referenceDensity : Density R) (transformation : TranslateAndScale R)
    (atoms : LocalAtomSet) :
  length (transformedCoordinates_
            (impl_ (DensityFittingForceProvider_ctor parameters referenceDensity
                      transformation atoms)))
  = numAtomsLocal atoms
  ∧ ∀ provider inp out,
      numAtomsLocal (localAtomSet_ (impl_ provider)) ≠ 0 →
      inRange (impl_ provider) inp out →
      evaluationYields (DensityFittingForceProvider_calculateForces provider inp out)
        (λ r, scratchSized (resImpl r)).
Proof.
  split; [cbn; by rewrite length_replicate|].
  intros [impl] inp out Hn Hin. cbn in Hn, Hin.
  unfold DensityFittingForceProvider_calculateForces. cbn [impl_].
  eapply evaluationYields_impl; [|by apply calculateForces_yields].
  intros r [calls Hc]. unfold scratchSized.
  rewrite (completed_localAtomSet _ _ _ _ _ _ Hc),
    (completed_coordinates _ _ _ _ _ _ Hc), (completed_forces _ _ _ _ _ _ Hc).
  rewrite length_inverseIgnoringZeroScale. unfold latticeForces.
  rewrite length_fmap, length_zip. cbn [transformedCoordinates_ spread localAtomSet_].
  rewrite (length_localCoordinates _ _ _ Hin). unfold numAtomsLocal.
  destruct Hin as (_ & _ & Hamp). unfold amplitudesOf. split; lia.
Qed.

Lemma pickCoordinates_ext (x x' : list RVec) (indices : list nat) :
  (∀ i, i ∈ indices → x' !! i = x !! i) →
  pickCoordinates x' indices = pickCoordinates x indices.
Proof.
  unfold pickCoordinates. induction indices as [|i indices IH]; intros Hx; [done|].
  cbn. rewrite (Hx i) by constructor.
  rewrite IH; [done|]. intros j Hj. apply Hx. by constructor.
Qed.

(** X2: of the positions the host passes in, an evaluation reads those of
    the local restrained atoms and no other: two inputs that agree there
    (and on the atom data and the communication record) give the same
    outcome, also when their position arrays differ elsewhere or in
    length. *)
Theorem only_restrained_positions_are_read (provider : DensityFittingForceProvider)
    (inp inp' : ForceProviderInput) (out : ForceProviderOutput) :
  mdatoms_ inp' = mdatoms_ inp →
  cr_ inp' = cr_ inp →
  (∀ i, i ∈ localIndex (localAtomSet_ (impl_ provider)) → x_ inp' !! i = x_ inp !! i) →
  DensityFittingForceProvider_calculateForces provider inp' out
  = DensityFittingForceProvider_calculateForces provider inp out.
Proof.
  intros Hmd Hcr Hx.
  unfold DensityFittingForceProvider_calculateForces, calculateForces.
  by rewrite Hmd, Hcr, (pickCoordinates_ext (x_ inp) (x_ inp')).
Qed.

(** X3: an evaluation leaves nothing behind for the next one to see.  From
    the provider a finished evaluation returns, every further evaluation
    ends exactly as it would from the provider before; in particular the
    same call made again returns the same result.  After a reduction this
    holds when the summed buffer has the length of the buffer handed over. *)
Theorem later_evaluations_unaffected (impl : Impl) (inp : ForceProviderInput)
    (out : ForceProviderOutput) :
  (∀ r, calculateForces impl inp out = Ok (Returned r) →
        behavesAs (resImpl r) impl
        ∧ calculateForces (resImpl r) inp out = Ok (Returned r))
  ∧ (∀ nr buffer resume summed r,
       calculateForces impl inp out = Ok (InReduction nr buffer resume) →
       resume summed = Ok r → length summed = length buffer →
       behavesAs (resImpl r) impl).
Proof.
  split.
  - intros r Hrun.
    assert (behavesAs (resImpl r) impl) as Hsame.
    { intros inp' out'.
      destruct (decide (numAtomsLocal (localAtomSet_ impl) = 0)) as [Hn|Hn].
      - unfold calculateForces in Hrun. rewrite decide_True in Hrun by done.
        injection Hrun as <-. apply sameOutcome_refl.
      - apply calculateForces_configuration; [|done].
        exact (calculateForces_keeps_configuration _ _ _ _ Hrun). }
    split; [done|]. apply sameOutcome_Returned. rewrite <- Hrun. apply Hsame.
  - intros nr buffer resume summed r Hrun Hr Hlen inp' out'.
    destruct (decide (numAtomsLocal (localAtomSet_ impl) = 0)) as [Hn|Hn].
    + unfold calculateForces in Hrun. by rewrite decide_True in Hrun by done.
    + apply calculateForces_configuration; [|done].
      exact (calculateForces_keeps_configuration _ _ _ _ Hrun summed r Hr Hlen).
Qed.

(** X4: the two branches of the communication step differ by the
    collective alone.  Where the evaluation on a single rank returns, the
    same evaluation in a run on several ranks hands to [gmx_sumf] the very
    buffer the single rank ends with, and resumed with that buffer it
    leaves the same provider and the same output. *)
Theorem reduction_of_own_buffer_is_sequential (impl : Impl)
    (inp inp' : ForceProviderInput) (out : ForceProviderOutput) (r' : Result) :
  x_ inp = x_ inp' → mdatoms_ inp = mdatoms_ inp' →
  PAR (cr_ inp) = true → PAR (cr_ inp') = false →
  numAtomsLocal (localAtomSet_ impl) ≠ 0 →
  calculateForces impl inp' out = Ok (Returned r') →
  ∃ resume r,
    calculateForces impl inp out
    = Ok (InReduction (required_span_size (gtExtents (gaussTransform_ (resImpl r'))))
            (gtData (gaussTransform_ (resImpl r'))) resume)
    ∧ resume (gtData (gaussTransform_ (resImpl r'))) = Ok r
    ∧ resImpl r = resImpl r' ∧ resOutput r = resOutput r'.
Proof.
  intros Hx Hmd Hpar Hseq Hn. unfold calculateForces.
  rewrite !decide_False by done. rewrite Hx, Hmd, Hpar, Hseq.
  destruct (pickCoordinates _ _) as [picked|]; [|done].
  cbn [mbind res_bind].
  destruct (spreadAtoms _ _ _) as [g|]; [|done].
  cbn [mbind res_bind].
  destruct (afterCommunication _ _ _ _ _) as [r0|] eqn:Hr0; [|done].
  intros [= <-].
  rewrite (afterCommunication_buffer _ _ _ _ _ _ Hr0). cbn [gtData gtExtents gaussTransform_].
  destruct (afterCommunication_calls _ _ _ _
              (CallSetZero
               :: replicate
                    (length (toLattice (transformationToDensityLattice_ impl) <$> picked))
                    CallAdd ++ [CallSumf]) _ _ Hr0) as (r & Hr & Himpl & Hout).
  by eexists _, r.
Qed.

(** ** Where an evaluation is defined *)

Lemma pickCoordinates_inv (x picked : list RVec) (indices : list nat) :
  pickCoordinates x indices = Ok picked →
  Forall (λ i, i < length x) indices ∧ length picked = length indices.
Proof.
  unfold pickCoordinates. revert picked.
  induction indices as [|i indices IH]; intros picked Hrun; cbn in Hrun.
  - by injection Hrun as <-.
  - destruct (x !! i) as [p|] eqn:Hp; cbn in Hrun; [|done].
    destruct (traverse _ indices) as [ps|]; cbn in Hrun; [|done].
    injection Hrun as <-. destruct (IH ps eq_refl) as [Hall Hlen].
    split; [|cbn; by rewrite Hlen].
    constructor; [|done]. by eapply lookup_lt_Some.
Qed.

Lemma addForces_inv (forceConstant : R) (indices : list nat)
    (forces force force' : list RVec) :
  addForces forceConstant indices forces force = Ok force' →
  Forall (λ i, i < length force) indices.
Proof.
  revert forces force.
  induction indices as [|i indices IH]; intros forces force Hrun; [done|].
  destruct forces as [|f forces]; cbn in Hrun; [done|].
  destruct (force !! i) as [old|] eqn:Hold; [|done].
  constructor; [by eapply lookup_lt_Some|].
  apply IH in Hrun. by rewrite length_insert in Hrun.
Qed.

Lemma afterCommunication_inv (impl : Impl) (amplitudes : list R)
    (out : ForceProviderOutput) (calls : list Call) (buffer : list R) (r : Result) :
  afterCommunication impl amplitudes out calls buffer = Ok r →
  Forall (λ i, i < length (force_ out)) (localIndex (localAtomSet_ impl)).
Proof.
  unfold afterCommunication. intros Hrun.
  destruct (evaluateForces _ _ _ _) as [forces|]; cbn in Hrun; [|done].
  destruct (addForces _ _ _ _) as [force|] eqn:Hadd; cbn in Hrun; [|done].
  by eapply addForces_inv.
Qed.

(** X5: on a non-empty atom set an evaluation runs to its end without
    leaving a buffer exactly when every local index lies inside the host's
    position and force arrays and the amplitude lookup returns at least
    one amplitude per local atom; the code itself checks none of this. *)
Theorem evaluation_defined_iff_in_range (impl : Impl) (inp : ForceProviderInput)
    (out : ForceProviderOutput) :
  numAtomsLocal (localAtomSet_ impl) ≠ 0 →
  evaluationYields (calculateForces impl inp out) (λ _, True) ↔ inRange impl inp out.
Proof.
  intros Hn. split.
  - unfold calculateForces. rewrite decide_False by done.
    destruct (pickCoordinates _ _) as [picked|] eqn:Hpick; [|done].
    cbn [mbind res_bind].
    destruct (spreadAtoms _ _ _) as [g|] eqn:Hspread; [|done].
    cbn [mbind res_bind].
    apply pickCoordinates_inv in Hpick as [Hx Hlen].
    apply spreadAtoms_length in Hspread as [_ Hamp].
    rewrite length_fmap, Hlen in Hamp.
    intros Hruns. split_and!; [done| |done].
    destruct (PAR _).
    + destruct (Hruns []) as (r & Hr & _).
      by apply afterCommunication_inv in Hr.
    + destruct (afterCommunication _ _ _ _ _) as [r|] eqn:Hr; [|done].
      by apply afterCommunication_inv in Hr.
  - intros Hin.
    eapply evaluationYields_impl; [|by apply calculateForces_yields]. done.
Qed.

(** ** Which runs complete *)

(** X6: in a run on several ranks, with all indices in range, one
    evaluation completes on every rank exactly when either every rank
    holds restrained atoms or none does; when none does, every rank gets
    its provider and its output back untouched. *)
Theorem run_completes_iff_all_or_none (ranks : list Rank) :
  Forall (λ rk, parallel rk ∧ inRange (rankImpl rk) (rankInput rk) (rankOutput rk))
    ranks →
  ((∃ results, evaluateOnAllRanks ranks = Ok results)
   ↔ Forall (λ rk, numAtomsLocal (localAtomSet_ (rankImpl rk)) ≠ 0) ranks
     ∨ Forall (λ rk, numAtomsLocal (localAtomSet_ (rankImpl rk)) = 0) ranks)
  ∧ (Forall (λ rk, numAtomsLocal (localAtomSet_ (rankImpl rk)) = 0) ranks →
     evaluateOnAllRanks ranks = Ok (untouched <$> ranks)).
Proof.
  intros Hranks.
  assert (Forall (λ rk, numAtomsLocal (localAtomSet_ (rankImpl rk)) = 0) ranks →
          evaluateOnAllRanks ranks = Ok (untouched <$> ranks)) as Hnone.
  { intros Hempty. unfold evaluateOnAllRanks.
    rewrite outcomes_parallel by done. cbn [mbind res_bind].
    assert (mapM returnedOf (outcomeOf <$> ranks) = Some (untouched <$> ranks)) as ->;
      [|done].
    apply mapM_Some_2, Forall2_fmap, Forall_Forall2_diag.
    eapply Forall_impl; [exact Hempty|]. intros rk Hrk. unfold outcomeOf.
    by rewrite decide_True. }
  split; [|done]. split.
  - intros [results Hrun].
    destruct (decide (Forall (λ rk, numAtomsLocal (localAtomSet_ (rankImpl rk)) ≠ 0)
                        ranks)) as [Hall|Hnot]; [by left|].
    destruct (decide (Forall (λ rk, numAtomsLocal (localAtomSet_ (rankImpl rk)) = 0)
                        ranks)) as [Hempty|Hsome]; [by right|].
    apply not_Forall_Exists in Hnot; [|apply _].
    apply not_Forall_Exists in Hsome; [|apply _].
    apply Exists_exists in Hnot as (rk1 & Hrk1 & Hn1).
    apply Exists_exists in Hsome as (rk0 & Hrk0 & Hn0).
    cbn in Hn1, Hn0.
    rewrite (empty_rank_breaks_collective ranks rk0 rk1) in Hrun; [done..|].
    by destruct (decide (numAtomsLocal (localAtomSet_ (rankImpl rk1)) = 0)).
  - intros [Hall|Hempty].
    + destruct (evaluateOnAllRanks_parallel ranks) as (results & Hrun & _);
        [|by exists results].
      apply Forall_and. split; [apply Forall_and; split|].
      * done.
      * eapply Forall_impl; [exact Hranks|]. by intros rk [_ Hin].
      * eapply Forall_impl; [exact Hranks|]. by intros rk [Hpar _].
    + eexists. by apply Hnone.
Qed.

(** ** The host's buffers *)

Lemma afterCommunication_output (impl : Impl) (amplitudes : list R)
    (out out' : ForceProviderOutput) (calls : list Call) (buffer : list R)
    (r r' : Result) :
  afterCommunication impl amplitudes out calls buffer = Ok r →
  afterCommunication impl amplitudes out' calls buffer = Ok r' →
  resImpl r' = resImpl r ∧ resCalls r' = resCalls r.
Proof.
  unfold afterCommunication. intros Hrun Hrun'.
  destruct (evaluateForces _ _ _ _) as [forces|]; cbn in Hrun, Hrun'; [|done].
  destruct (addForces _ _ _ (force_ out)) as [force|]; cbn in Hrun; [|done].
  destruct (addForces _ _ _ (force_ out')) as [force'|]; cbn in Hrun'; [|done].
  injection Hrun as <-. injection Hrun' as <-. done.
Qed.

Lemma afterCommunication_lookup (impl : Impl) (amplitudes : list R)
    (out : ForceProviderOutput) (calls : list Call) (buffer : list R) (r : Result) :
  afterCommunication impl amplitudes out calls buffer = Ok r →
  amplitudeLookup_ (resImpl r) = amplitudeLookup_ impl.
Proof.
  unfold afterCommunication. intros Hrun.
  destruct (evaluateForces _ _ _ _) as [forces|]; cbn in Hrun; [|done].
  destruct (addForces _ _ _ _) as [force|]; cbn in Hrun; [|done].
  by injection Hrun as <-.
Qed.

(** X7: the host's force and energy buffers are written, never read for
    anything else: started on two different outputs, the same evaluation
    hands the same buffer to [gmx_sumf] and leaves the same provider
    (density, transformed coordinates, forces) and makes the same calls. *)
Theorem host_output_is_only_written (impl : Impl) (inp : ForceProviderInput)
    (out out' : ForceProviderOutput) :
  (∀ r r',
     calculateForces impl inp out = Ok (Returned r) →
     calculateForces impl inp out' = Ok (Returned r') →
     resImpl r' = resImpl r ∧ resCalls r' = resCalls r)
  ∧ (∀ nr buffer resume nr' buffer' resume',
       calculateForces impl inp out = Ok (InReduction nr buffer resume) →
       calculateForces impl inp out' = Ok (InReduction nr' buffer' resume') →
       nr' = nr ∧ buffer' = buffer
       ∧ ∀ summed r r',
           resume summed = Ok r → resume' summed = Ok r' →
           resImpl r' = resImpl r ∧ resCalls r' = resCalls r).
Proof.
  unfold calculateForces. split.
  - intros r r' Hrun Hrun'.
    destruct (decide _).
    { injection Hrun as <-. by injection Hrun' as <-. }
    destruct (pickCoordinates _ _) as [picked|]; [|done].
    cbn [mbind res_bind] in Hrun, Hrun'.
    destruct (spreadAtoms _ _ _) as [g|]; [|done].
    cbn [mbind res_bind] in Hrun, Hrun'.
    destruct (PAR _); [done|].
    destruct (afterCommunication _ _ out _ _) as [r0|] eqn:Hr0; [|done].
    destruct (afterCommunication _ _ out' _ _) as [r0'|] eqn:Hr0'; [|done].
    injection Hrun as <-. injection Hrun' as <-.
    by eapply afterCommunication_output.
  - intros nr buffer resume nr' buffer' resume' Hrun Hrun'.
    destruct (decide _); [done|].
    destruct (pickCoordinates _ _) as [picked|]; [|done].
    cbn [mbind res_bind] in Hrun, Hrun'.
    destruct (spreadAtoms _ _ _) as [g|]; [|done].
    cbn [mbind res_bind] in Hrun, Hrun'.
    destruct (PAR _).
    + injection Hrun as <- <- <-. injection Hrun' as <- <- <-.
      split_and!; [done..|]. intros summed r r' Hr Hr'.
      by eapply afterCommunication_output.
    + by destruct (afterCommunication _ _ out _ _).
Qed.

(** X8: what an evaluation needs, it leaves in place.  When the local
    indices are in range before an evaluation on a non-empty atom set,
    they are in range for the provider and the output it returns, so the
    next evaluation on that output runs as well. *)
Theorem in_range_is_kept (impl : Impl) (inp : ForceProviderInput)
    (out : ForceProviderOutput) :
  numAtomsLocal (localAtomSet_ impl) ≠ 0 →
  inRange impl inp out →
  evaluationYields (calculateForces impl inp out)
    (λ r, inRange (resImpl r) inp (resOutput r)
          ∧ evaluationYields (calculateForces (resImpl r) inp (resOutput r))
              (λ _, True)).
Proof.
  intros Hn Hin.
  assert (∀ calls buffer r,
    afterCommunication (spread impl inp) (amplitudesOf impl inp) out calls buffer = Ok r →
    completed (spread impl inp) (amplitudesOf impl inp) out calls buffer r →
    inRange (resImpl r) inp (resOutput r)
    ∧ evaluationYields (calculateForces (resImpl r) inp (resOutput r)) (λ _, True))
    as Hkept.
  { intros calls buffer r Hr Hc.
    assert (inRange (resImpl r) inp (resOutput r)) as Hin'.
    { unfold inRange.
      rewrite (completed_localAtomSet _ _ _ _ _ _ Hc),
        (completed_force_length _ _ _ _ _ _ Hc), (afterCommunication_lookup _ _ _ _ _ _ Hr).
      exact Hin. }
    split; [done|].
    eapply evaluationYields_impl; [|apply calculateForces_yields].
    - done.
    - by rewrite (completed_localAtomSet _ _ _ _ _ _ Hc).
    - done. }
  rewrite calculateForces_ok by done. destruct (PAR (cr_ inp)).
  - intros summed.
    destruct (afterCommunication_spread_ok impl inp out
                (callsBeforeCommunication impl inp ++ [CallSumf]) summed Hin)
      as (r & Hr & Hc).
    exists r. split; [done|]. split; [exact (completed_buffer _ _ _ _ _ _ Hc)|].
    by eapply Hkept.
  - destruct (afterCommunication_spread_ok impl inp out
                (callsBeforeCommunication impl inp)
                (gtData (gaussTransform_ (spread impl inp))) Hin) as (r & Hr & Hc).
    rewrite Hr. cbn. by eapply Hkept.
Qed.



(** ** Exact arithmetic: the sum of the slices *)

Context `{!ExactArithmetic R}.

Lemma add_zero_r (a : R) : add a zero = a.
Proof. by rewrite add_comm, add_zero_l. Qed.

Lemma zip_with_add_zero (buffer : list R) (n : nat) :
  length buffer = n → zip_with add buffer (replicate n zero) = buffer.
Proof.
  intros Hn. rewrite zip_with_replicate_r_eq by done.
  rewrite <- (list_fmap_id buffer) at 2. apply list_fmap_ext.
  intros i a _. apply add_zero_r.
Qed.

Lemma zip_with_add_spreadOne (k : Shape R) (e : Extents) (ra : Vec3 R * R)
    (a b : list R) :
  zip_with add a (spreadOne k e ra b) = spreadOne k e ra (zip_with add a b).
Proof.
  apply list_eq. intros c. unfold spreadOne.
  rewrite lookup_zip_with, !list_lookup_imap, lookup_zip_with.
  destruct (a !! c) as [x|]; [|done]. destruct (b !! c) as [y|]; [|done].
  cbn. by rewrite add_assoc.
Qed.

Lemma zip_with_add_spreadAll (k : Shape R) (e : Extents) (qs : list (Vec3 R * R))
    (a b : list R) :
  zip_with add a (spreadAll k e qs b) = spreadAll k e qs (zip_with add a b).
Proof.
  revert b. induction qs as [|q qs IH]; intros b; [done|].
  by rewrite !spreadAll_cons, IH, zip_with_add_spreadOne.
Qed.

Lemma zip_with_add_densityOf (k : Shape R) (e : Extents) (n : nat)
    (qs : list (Vec3 R * R)) (a : list R) :
  length a = n → zip_with add a (densityOf k e n qs) = spreadAll k e qs a.
Proof.
  intros Hn. unfold densityOf.
  by rewrite zip_with_add_spreadAll, zip_with_add_zero.
Qed.

Lemma foldl_zip_with_add_densityOf (k : Shape R) (e : Extents) (n : nat)
    (slices : list (list (Vec3 R * R))) (a : list R) :
  length a = n →
  foldl (zip_with add) a (densityOf k e n <$> slices)
  = spreadAll k e (concat slices) a.
Proof.
  revert a. induction slices as [|qs slices IH]; intros a Hn; [done|].
  rewrite fmap_cons, concat_cons, spreadAll_app.
  change (foldl ?f a (?b :: ?bs)) with (foldl f (f a b) bs).
  rewrite zip_with_add_densityOf by done.
  apply IH. by rewrite length_spreadAll.
Qed.

(** The sum over the ranks of the densities of their slices is the density
    of all the particles together. *)
Lemma gmx_sumf_densityOf (k : Shape R) (e : Extents) (n : nat)
    (slices : list (list (Vec3 R * R))) :
  slices ≠ [] →
  gmx_sumf (densityOf k e n <$> slices) = densityOf k e n (concat slices).
Proof.
  destruct slices as [|ps slices]; [done|]. intros _.
  rewrite fmap_cons, concat_cons. unfold gmx_sumf.
  rewrite (foldl_zip_with_add_densityOf k e n).
  - unfold densityOf. by rewrite spreadAll_app.
  - unfold densityOf. by rewrite length_spreadAll, length_replicate.
Qed.

Lemma spreadOne_comm (k : Shape R) (e : Extents) (p q : Vec3 R * R) (buffer : list R) :
  spreadOne k e p (spreadOne k e q buffer) = spreadOne k e q (spreadOne k e p buffer).
Proof.
  apply list_eq. intros c. unfold spreadOne. rewrite !list_lookup_imap.
  destruct (buffer !! c) as [v|]; [|done]. cbn. f_equal.
  rewrite <- !add_assoc. f_equal. apply add_comm.
Qed.

(** The order in which particles are spread does not matter. *)
Lemma spreadAll_Permutation (k : Shape R) (e : Extents) (ps qs : list (Vec3 R * R))
    (buffer : list R) :
  ps ≡ₚ qs → spreadAll k e ps buffer = spreadAll k e qs buffer.
Proof.
  intros Hperm. revert buffer.
  induction Hperm as [|p ps qs _ IH|p q ps|ps qs rs _ IH1 _ IH2]; intros buffer.
  - done.
  - rewrite !spreadAll_cons. apply IH.
  - rewrite !spreadAll_cons. by rewrite spreadOne_comm.
  - by rewrite IH1.
Qed.

Lemma localBuffer_densityOf (g : GaussTransform3D) (rk : Rank) :
  sameGrid g rk →
  localBuffer rk
  = densityOf (gtShape g) (gtExtents g) (length (gtData g)) (particlesOf rk).
Proof.
  intros (He & Hk & Hn). unfold localBuffer. cbn.
  by rewrite gtData_rasterize, He, Hk, Hn.
Qed.

Lemma summedBuffer_densityOf (g : GaussTransform3D) (ranks : list Rank) :
  ranks ≠ [] → Forall (sameGrid g) ranks →
  summedBuffer ranks
  = densityOf (gtShape g) (gtExtents g) (length (gtData g))
      (concat (particlesOf <$> ranks)).
Proof.
  intros Hne Hgrid. unfold summedBuffer.
  rewrite <- gmx_sumf_densityOf by (by destruct ranks).
  rewrite <- list_fmap_compose. f_equal.
  apply Forall_fmap_ext. eapply Forall_impl; [done|].
  intros rk Hrk. by apply localBuffer_densityOf.
Qed.

(** When every rank holds atoms and the arithmetic is exact, the ranks end
    with the density buffer a single rank gets by spreading all the atoms;
    the single rank does not enter the reduction at all. *)
Lemma sliced_density_equals_whole (ranks : list Rank) (single : Rank) :
  Forall (λ rk, holdsAtoms rk ∧ parallel rk) ranks →
  holdsAtoms single → PAR (cr_ (rankInput single)) = false →
  Forall (sameGrid (gaussTransform_ (rankImpl single))) ranks →
  particlesOf single ≡ₚ concat (particlesOf <$> ranks) →
  (∃ results whole,
     evaluateOnAllRanks ranks = Ok results
     ∧ calculateForces (rankImpl single) (rankInput single) (rankOutput single)
       = Ok (Returned whole)
     ∧ reductionCalls (resCalls whole) = 0
     ∧ Forall (λ r, gtData (gaussTransform_ (resImpl r))
                    = gtData (gaussTransform_ (resImpl whole))) results)
  ∧ ∀ k e n (slices : list (list (Vec3 R * R))),
      slices ≠ [] →
      gmx_sumf (densityOf k e n <$> slices) = densityOf k e n (concat slices).
Proof.
  intros Hall [Hn Hin] Hpar Hgrid Hperm. split; [|by intros; apply gmx_sumf_densityOf].
  destruct (evaluateOnAllRanks_parallel ranks Hall) as (results & Hrun & Hres).
  destruct (afterCommunication_spread_ok (rankImpl single) (rankInput single)
              (rankOutput single)
              (callsBeforeCommunication (rankImpl single) (rankInput single))
              (localBuffer single) Hin) as (whole & Hwhole & Hc).
  exists results, whole. split_and!.
  - done.
  - rewrite calculateForces_ok by done. rewrite Hpar.
    unfold localBuffer in Hwhole. by rewrite Hwhole.
  - rewrite (completed_calls _ _ _ _ _ _ Hc). unfold callsBeforeCommunication.
    rewrite (reductionCalls_app (_ :: _)), (reductionCalls_app [CallGradient]),
      (reductionCalls_app (replicate _ _)), reductionCalls_cons_ne,
      !reductionCalls_replicate by done.
    done.
  - rewrite (completed_buffer _ _ _ _ _ _ Hc).
    destruct ranks as [|rk0 ranks].
    { apply Forall2_nil_inv_l in Hres as ->. constructor. }
    apply Forall_forall. intros r Hr.
    apply list_elem_of_lookup_1 in Hr as [i Hi].
    destruct (Forall2_lookup_r _ _ _ _ _ Hres Hi) as (rk & _ & Hcr).
    rewrite (completed_buffer _ _ _ _ _ _ Hcr).
    rewrite (summedBuffer_densityOf (gaussTransform_ (rankImpl single))) by done.
    rewrite (localBuffer_densityOf (gaussTransform_ (rankImpl single)) single) by done.
    unfold densityOf. symmetry. by apply spreadAll_Permutation.
Qed.

End Proofs.

(** * The sample run *)

#[global] Instance Qc_ExactArithmetic : ExactArithmetic Qc.
Proof.
  split; cbn.
  - intros. ring.
  - intros. ring.
  - intros. ring.
  - intros v s Hs. by apply Qcdiv_mult_l.
  - intros s. rewrite Qeq_bool_iff. split.
    + intros Hs. by apply Qc_is_canon.
    + by intros ->.
Qed.

Lemma sample_inRange (atoms : list nat) (ranks : nat) :
  Forall (λ i, i < 2) atoms →
  inRange (Sample.provider atoms) (Sample.input ranks) Sample.output.
Proof.
  intros Hatoms. unfold inRange. cbn. split_and!; [done..|].
  by rewrite length_fmap.
Defined.

Lemma sample_holdsAtoms (atom : nat) (atoms : list nat) (ranks : nat) :
  Forall (λ i, i < 2) (atom :: atoms) →
  holdsAtoms (Sample.rank ranks (atom :: atoms)).
Proof.
  intros Hatoms. split; [done|]. by apply sample_inRange.
Defined.

Lemma sample_parallel (atom : nat) (atoms : list nat) :
  Forall (λ i, i < 2) (atom :: atoms) →
  holdsAtoms (Sample.rank 2 (atom :: atoms)) ∧ parallel (Sample.rank 2 (atom :: atoms)).
Proof.
  intros Hatoms. split; [by apply sample_holdsAtoms|done].
Defined.

Lemma sample_two_ranks :
  Forall (λ rk, holdsAtoms rk ∧ parallel rk) Sample.twoRanks.
Proof.
  apply Forall_cons_2; [|apply Forall_cons_2; [|apply Forall_nil_2]];
    apply sample_parallel; repeat constructor.
Defined.

Lemma empty_set_leaves_output_unchanged_witness :
  numAtomsLocal (localAtomSet_ (Sample.provider [])) = 0
  ∧ calculateForces (Sample.provider []) (Sample.input 2) Sample.output
    = Ok (Returned (mkResult (Sample.provider []) Sample.output [])).
Proof.
  split; [reflexivity|].
  apply (empty_set_leaves_output_unchanged (Sample.provider []) (Sample.input 2)
           Sample.output).
  reflexivity.
Defined.

Lemma energy_term_gains_scaled_similarity_witness :
  evaluationYields
    (calculateForces (Sample.provider [0; 1]) (Sample.input 2) Sample.output)
    (energyAdded (Sample.provider [0; 1]) Sample.output).
Proof.
  apply (energy_term_gains_scaled_similarity (Sample.provider [0; 1]) (Sample.input 2)
           Sample.output).
  - cbn. lia.
  - apply sample_inRange. repeat constructor.
Defined.

Lemma forces_added_at_local_indices_witness :
  evaluationYields
    (calculateForces (Sample.provider [1; 0]) (Sample.input 1) Sample.output)
    (forcesAdded (Sample.provider [1; 0]) Sample.output).
Proof.
  apply (forces_added_at_local_indices (Sample.provider [1; 0]) (Sample.input 1)
           Sample.output).
  - cbn. lia.
  - apply sample_inRange. repeat constructor.
Defined.

Lemma sampleEvaluated_lifetime :
  lifetime (Sample.provider [0; 1]) (resImpl sampleEvaluated).
Proof.
  apply (lifetime_returned _ (Sample.provider [0; 1]) (Sample.input 1) Sample.output).
  - apply lifetime_start.
  - vm_compute. reflexivity.
Defined.

Lemma kernel_shape_shared_and_fixed_witness :
  let shape := kernelShape (Sample.q 1) (Sample.q 4) (tsScale Sample.toDensityLattice) in
  makeSpreadKernel (Sample.q 1) (Sample.q 4) (scaleOperationOnly Sample.toDensityLattice)
  = shape
  ∧ spreadKernel_ (resImpl sampleEvaluated) = shape
  ∧ gtShape (gaussTransform_ (resImpl sampleEvaluated)) = shape
  ∧ forceShape (densityFittingForce_ (resImpl sampleEvaluated)) = shape.
Proof.
  apply (kernel_shape_shared_and_fixed Sample.parameters Sample.referenceDensity
           Sample.toDensityLattice (mkLocalAtomSet [0; 1]) (resImpl sampleEvaluated)).
  exact sampleEvaluated_lifetime.
Defined.

Lemma sample_two_ranks_inRange :
  Forall (λ rk, parallel rk ∧ inRange (rankImpl rk) (rankInput rk) (rankOutput rk))
    Sample.twoRanks.
Proof.
  apply Forall_cons_2; [|apply Forall_cons_2; [|apply Forall_nil_2]];
    (split; [done|]); apply sample_inRange; repeat constructor.
Defined.

Lemma every_rank_adds_the_whole_energy_witness :
  evaluationYields
    (calculateForces (Sample.provider [0]) (Sample.input 2) Sample.output)
    (energyAdded (Sample.provider [0]) Sample.output)
  ∧ ∃ results,
      evaluateOnAllRanks Sample.twoRanks = Ok results
      ∧ Forall2 (λ rk r,
          gtData (gaussTransform_ (resImpl r)) = summedBuffer Sample.twoRanks
          ∧ energyAdded (rankImpl rk) (rankOutput rk) r) Sample.twoRanks results.
Proof.
  destruct (every_rank_adds_the_whole_energy Sample.twoRanks
              sample_two_ranks_inRange) as [Hrank Hall].
  split.
  - apply (Hrank (Sample.rank 2 [0])); [repeat constructor|cbn; lia].
  - apply Hall.
    apply Forall_cons_2; [|apply Forall_cons_2; [|apply Forall_nil_2]]; cbn; lia.
Defined.

Lemma sliced_density_equals_whole_witness :
  ∃ results whole,
    evaluateOnAllRanks Sample.twoRanks = Ok results
    ∧ calculateForces (Sample.provider [1; 0]) (Sample.input 1) Sample.output
      = Ok (Returned whole)
    ∧ reductionCalls (resCalls whole) = 0
    ∧ Forall (λ r, gtData (gaussTransform_ (resImpl r))
                   = gtData (gaussTransform_ (resImpl whole))) results.
Proof.
  apply (sliced_density_equals_whole Sample.twoRanks (Sample.rank 1 [1; 0])).
  - exact sample_two_ranks.
  - apply sample_holdsAtoms. repeat constructor.
  - reflexivity.
  - apply Forall_cons_2; [|apply Forall_cons_2; [|apply Forall_nil_2]];
      by split_and!.
  - apply (Permutation_swap _ _ []).
Defined.

(** C6, at an input where it fails: two ranks, the first holding atom 0 and
    the second holding none.  The first rank spreads its atom and enters
    [gmx_sumf]; the second returns from [calculateForces] at once and never
    calls it, so the collective is not entered by every rank. *)
Theorem empty_rank_skips_the_reduction :
  evaluateOnAllRanks [Sample.rank 2 [0]; Sample.rank 2 []] = Err CollectiveMismatch
  ∧ (∃ nr buffer resume,
       calculateForces (Sample.provider [0]) (Sample.input 2) Sample.output
       = Ok (InReduction nr buffer resume))
  ∧ calculateForces (Sample.provider []) (Sample.input 2) Sample.output
    = Ok (Returned (mkResult (Sample.provider []) Sample.output [])).
Proof.
  split_and!.
  - apply (empty_rank_breaks_collective _ (Sample.rank 2 [0]) (Sample.rank 2 [])).
    + apply Forall_cons_2; [|apply Forall_cons_2; [|apply Forall_nil_2]];
        (split; [done|]); apply sample_inRange; repeat constructor.
    + repeat constructor.
    + done.
    + repeat constructor.
    + done.
  - rewrite (calculateForces_outcomeOf (Sample.rank 2 [0])).
    + by eexists _, _, _.
    + done.
    + apply sample_inRange. repeat constructor.
  - done.
Qed.

(** * The sample run, continued *)

Lemma sampleEvaluated_runs :
  calculateForces (Sample.provider [0; 1]) (Sample.input 1) Sample.output
  = Ok (Returned sampleEvaluated).
Proof. vm_compute. reflexivity. Defined.

Lemma scratch_vectors_follow_atom_count_witness :
  length (transformedCoordinates_
            (impl_ (DensityFittingForceProvider_ctor Sample.parameters
                      Sample.referenceDensity Sample.toDensityLattice
                      (mkLocalAtomSet [0; 1]))))
  = 2
  ∧ evaluationYields
      (DensityFittingForceProvider_calculateForces (mkProvider (Sample.provider [0; 1]))
         (Sample.input 1) Sample.output)
      (λ r, scratchSized (resImpl r)).
Proof.
  destruct (scratch_vectors_follow_atom_count Sample.parameters Sample.referenceDensity
              Sample.toDensityLattice (mkLocalAtomSet [0; 1])) as [Hctor Heval].
  split; [exact Hctor|].
  apply (Heval (mkProvider (Sample.provider [0; 1]))).
  - cbn. lia.
  - apply sample_inRange. repeat constructor.
Defined.

Lemma only_restrained_positions_are_read_witness :
  DensityFittingForceProvider_calculateForces (mkProvider (Sample.provider [0]))
    sampleMovedInput Sample.output
  = DensityFittingForceProvider_calculateForces (mkProvider (Sample.provider [0]))
      (Sample.input 1) Sample.output.
Proof.
  apply (only_restrained_positions_are_read (mkProvider (Sample.provider [0]))
           (Sample.input 1) sampleMovedInput Sample.output).
  - reflexivity.
  - reflexivity.
  - intros i Hi. apply list_elem_of_singleton in Hi. rewrite Hi. reflexivity.
Defined.

Lemma later_evaluations_unaffected_witness :
  behavesAs (resImpl sampleEvaluated) (Sample.provider [0; 1])
  ∧ calculateForces (resImpl sampleEvaluated) (Sample.input 1) Sample.output
    = Ok (Returned sampleEvaluated).
Proof.
  destruct (later_evaluations_unaffected (Sample.provider [0; 1]) (Sample.input 1)
              Sample.output) as [Hreturned _].
  apply Hreturned. exact sampleEvaluated_runs.
Defined.

Lemma reduction_of_own_buffer_is_sequential_witness :
  ∃ resume r,
    calculateForces (Sample.provider [0; 1]) (Sample.input 2) Sample.output
    = Ok (InReduction
            (required_span_size (gtExtents (gaussTransform_ (resImpl sampleEvaluated))))
            (gtData (gaussTransform_ (resImpl sampleEvaluated))) resume)
    ∧ resume (gtData (gaussTransform_ (resImpl sampleEvaluated))) = Ok r
    ∧ resImpl r = resImpl sampleEvaluated
    ∧ resOutput r = resOutput sampleEvaluated.
Proof.
  apply (reduction_of_own_buffer_is_sequential (Sample.provider [0; 1])
           (Sample.input 2) (Sample.input 1) Sample.output sampleEvaluated).
  - reflexivity.
  - reflexivity.
  - reflexivity.
  - reflexivity.
  - cbn. lia.
  - exact sampleEvaluated_runs.
Defined.

Lemma evaluation_defined_iff_in_range_witness :
  evaluationYields
    (calculateForces (Sample.provider [0; 1]) (Sample.input 1) Sample.output)
    (λ _, True)
  ↔ inRange (Sample.provider [0; 1]) (Sample.input 1) Sample.output.
Proof.
  apply (evaluation_defined_iff_in_range (Sample.provider [0; 1]) (Sample.input 1)
           Sample.output).
  cbn. lia.
Defined.

Lemma run_completes_iff_all_or_none_witness :
  ((∃ results, evaluateOnAllRanks Sample.twoRanks = Ok results)
   ↔ Forall (λ rk, numAtomsLocal (localAtomSet_ (rankImpl rk)) ≠ 0) Sample.twoRanks
     ∨ Forall (λ rk, numAtomsLocal (localAtomSet_ (rankImpl rk)) = 0) Sample.twoRanks)
  ∧ (Forall (λ rk, numAtomsLocal (localAtomSet_ (rankImpl rk)) = 0) Sample.twoRanks →
     evaluateOnAllRanks Sample.twoRanks = Ok (untouched <$> Sample.twoRanks)).
Proof.
  apply (run_completes_iff_all_or_none Sample.twoRanks).
  exact sample_two_ranks_inRange.
Defined.

Lemma sampleEvaluatedAgain_runs :
  calculateForces (Sample.provider [0; 1]) (Sample.input 1) (resOutput sampleEvaluated)
  = Ok (Returned sampleEvaluatedAgain).
Proof. vm_compute. reflexivity. Defined.

Lemma host_output_is_only_written_witness :
  resImpl sampleEvaluatedAgain = resImpl sampleEvaluated
  ∧ resCalls sampleEvaluatedAgain = resCalls sampleEvaluated.
Proof.
  destruct (host_output_is_only_written (Sample.provider [0; 1]) (Sample.input 1)
              Sample.output (resOutput sampleEvaluated)) as [Hreturned _].
  apply (Hreturned sampleEvaluated sampleEvaluatedAgain).
  - exact sampleEvaluated_runs.
  - exact sampleEvaluatedAgain_runs.
Defined.

Lemma in_range_is_kept_witness :
  evaluationYields
    (calculateForces (Sample.provider [0; 1]) (Sample.input 2) Sample.output)
    (λ r, inRange (resImpl r) (Sample.input 2) (resOutput r)
          ∧ evaluationYields
              (calculateForces (resImpl r) (Sample.input 2) (resOutput r))
              (λ _, True)).
Proof.
  apply (in_range_is_kept (Sample.provider [0; 1]) (Sample.input 2) Sample.output).
  - cbn. lia.
  - apply sample_inRange. repeat constructor.
Defined.

(** * A lattice without extent along X, and a run with an empty slice *)



Lemma singleRankEvaluated_runs :
  calculateForces (Sample.provider [0]) (Sample.input 1) Sample.output
  = Ok (Returned singleRankEvaluated).
Proof. vm_compute. reflexivity. Defined.

Lemma emptySliceRanks_inRange :
  Forall (λ rk, parallel rk ∧ inRange (rankImpl rk) (rankInput rk) (rankOutput rk))
    emptySliceRanks.
Proof.
  apply Forall_cons_2; [|apply Forall_cons_2; [|apply Forall_nil_2]];
    (split; [done|]); apply sample_inRange; repeat constructor.
Defined.

(** C5, at an input where it fails: one restrained atom divided over two
    ranks, so that the second slice is empty.  A single rank spreads the
    atom to the buffer (6, 3).  On two ranks the second rank returns from
    [calculateForces] with its buffer as it was, (0, 0), without zeroing,
    spreading or summing, and the evaluation of the run does not complete:
    no rank ends with the buffer of the single rank. *)
Theorem empty_slice_leaves_rank_without_density :
  (calculateForces (Sample.provider [0]) (Sample.input 1) Sample.output
   = Ok (Returned singleRankEvaluated)
   ∧ shownBuffer (gtData (gaussTransform_ (resImpl singleRankEvaluated)))
     = [6 # 1; 3 # 1]%Q)
  ∧ (calculateForces (Sample.provider []) (Sample.input 2) Sample.output
     = Ok (Returned (untouched (Sample.rank 2 [])))
     ∧ shownBuffer (gtData (gaussTransform_ (resImpl (untouched (Sample.rank 2 [])))))
       = [0 # 1; 0 # 1]%Q)
  ∧ evaluateOnAllRanks emptySliceRanks = Err CollectiveMismatch.
Proof.
  split_and!.
  - exact singleRankEvaluated_runs.
  - vm_compute. reflexivity.
  - reflexivity.
  - vm_compute. reflexivity.
  - apply (empty_rank_breaks_collective _ (Sample.rank 2 [0]) (Sample.rank 2 [])).
    + exact emptySliceRanks_inRange.
    + repeat constructor.
    + done.
    + repeat constructor.
    + done.
Qed.

(** C10, at an input where it fails: a run on two ranks in which the first
    rank holds atom 0 and the second holds none.  The density of the whole
    selection is (6, 3) and the energy for it is -30, which a single rank
    adds to its term.  In the run on two ranks the rank that holds the atom
    hands the buffer (6, 3) to [gmx_sumf] and has not returned; the
    collective is never completed, so the run has no result and that rank
    has added nothing to its energy term. *)
Theorem rank_with_atom_never_adds_energy :
  (∃ o,
     calculateForces (Sample.provider [0]) (Sample.input 2) Sample.output = Ok o
     ∧ returnedOf o = None
     ∧ (shownBuffer ∘ fst) <$> reductionOf o = Some [6 # 1; 3 # 1]%Q)
  ∧ (∀ results, evaluateOnAllRanks emptySliceRanks ≠ Ok results)
  ∧ this (term (resOutput singleRankEvaluated) F_COM_PULL) = (-30 # 1)%Q.
Proof.
  split_and!.
  - rewrite (calculateForces_outcomeOf (Sample.rank 2 [0])).
    + eexists. split; [reflexivity|]. split; [reflexivity|].
      vm_compute. reflexivity.
    + done.
    + apply sample_inRange. repeat constructor.
  - intros results.
    rewrite (empty_rank_breaks_collective emptySliceRanks (Sample.rank 2 [0])
               (Sample.rank 2 [])).
    + done.
    + exact emptySliceRanks_inRange.
    + repeat constructor.
    + done.
    + repeat constructor.
    + done.
  - vm_compute. reflexivity.
Qed.
